(** * Brownian motion targets of the inference gym

    A shallow embedding of [inference_gym/targets/brownian_motion.py]:
    the two prior generators, the log-likelihood with its
    missing-observation mask, and the four model classes built from
    them, together with the properties stated about them.

    The tensor library and the distribution library are collaborators
    of this file, not part of it.  They are reached through the
    [Engine] interface below; two engines are given, IEEE binary32 (the
    [tf.float32] the models declare) and an exact arithmetic on the
    extended reals. *)

From Stdlib Require Import String Ascii DecimalString.
From Stdlib Require DecimalZ.
From Stdlib Require Import ZArith Bool Lia Reals Lra.
From Stdlib Require Import Floats.SpecFloat.
From Stdlib Require Import List Permutation.
Import ListNotations.

Set Implicit Arguments.

(** ** The tensor engine *)

(** What the source asks of the tensor library: the literals [0.] and
    [2.], the addition of two scalars, the reduction of a vector to the
    sum of its entries, [tf.math.is_finite], the test [0 < x], and the
    log-density of [tfd.Normal]. *)
Class Engine : Type := {
  dtype : Type;
  zero : dtype;
  two : dtype;
  add : dtype -> dtype -> dtype;
  sum_entries : list dtype -> dtype;
  is_finite : dtype -> bool;
  is_positive : dtype -> bool;
  normal_log_prob : dtype -> dtype -> dtype -> dtype
}.

(** The order in which a reduction adds the entries of a vector is the
    library's own: it may add them left to right, pairwise, or lane by
    lane with accumulators that start at zero.  [sums add zero l r] says
    that [r] is [l] added up in one of these ways: the sum of no entry
    is zero, the sum of one entry is the entry, and a vector is summed
    by dividing its entries, in any order, into two parts and adding
    the sums of the parts. *)
Inductive sums {T} (add : T -> T -> T) (zero : T) : list T -> T -> Prop :=
  | sums_nil : sums add zero [] zero
  | sums_one (x : T) : sums add zero [x] x
  | sums_split (l l1 l2 : list T) (r1 r2 : T) :
      Permutation l (l1 ++ l2) ->
      sums add zero l1 r1 -> sums add zero l2 r2 ->
      sums add zero l (add r1 r2).

(** The arithmetic a distribution library needs to evaluate a Normal
    log-density. *)
Record Arith (T : Type) : Type := {
  a_add : T -> T -> T;
  a_sub : T -> T -> T;
  a_mul : T -> T -> T;
  a_div : T -> T -> T;
  a_log : T -> T;
  a_neg_half : T;
  a_half_log_two_pi : T
}.

(** [tf.math.squared_difference x y] is [(x - y) * (x - y)]. *)
Definition squared_difference {T} (A : Arith T) (x y : T) : T :=
  a_mul A (a_sub A x y) (a_sub A x y).

(** Modelled from the spec: [tfd.Normal(loc, scale).log_prob(x)] is not
    under src/.  The spec calls it the log-density of the observed loc
    against the latent position using the observation noise scale, that
    is the Normal log-density
    [-((x - loc) / scale)^2 / 2 - ln scale - ln (2 pi) / 2], evaluated in
    the engine's arithmetic the way the distribution library orders it:
    the unnormalised term [-0.5 * squared_difference (x / scale)
    (loc / scale)] minus the normalisation [0.5 * ln (2 pi) + ln scale]. *)
Definition Normal_log_prob {T} (A : Arith T) (loc scale x : T) : T :=
  let log_unnormalized :=
    a_mul A (a_neg_half A)
      (squared_difference A (a_div A x scale) (a_div A loc scale)) in
  let log_normalization := a_add A (a_half_log_two_pi A) (a_log A scale) in
  a_sub A log_unnormalized log_normalization.

(** ** Errors *)

(** A Python exception is [None]; [let*] sequences fallible steps. *)
Definition bind {A B} (m : option A) (k : A -> option B) : option B :=
  match m with
  | Some a => k a
  | None => None
  end.

Notation "'let*' x ':=' m 'in' k" := (bind m (fun x => k))
  (at level 10, x pattern, m at level 100, k at level 200).

(** ** Bijectors *)

(** The two bijectors the models use. *)
Inductive Bijector : Type :=
  | Identity
  | Softplus.



Section Model.

Context {E : Engine}.

(** ** Rank-one tensors *)

(** One sample is modelled: every entry of [values] is a scalar tensor,
    [locs] is a vector, and a vector is the list of its entries. *)
Definition tensor := list dtype.

(** [tf.stack values axis=-1] on scalars: the vector of them.  The
    library reads the shape of the first tensor before it packs, so a
    stack of no tensors is an [IndexError]. *)
Definition tf_stack (values : list dtype) : option tensor :=
  match values with
  | [] => None
  | _ :: _ => Some values
  end.

(** [tf.convert_to_tensor x] on a scalar. *)
Definition convert_to_tensor (x : dtype) : dtype := x.

(** [x[..., tf.newaxis]] on a scalar: the vector of shape [1]. *)
Definition newaxis (x : dtype) : tensor := [x].

(** Broadcasting of two vectors under an elementwise operation: equal
    lengths pair up, a vector of length one stretches, anything else is
    the shape error the tensor library raises. *)
Definition broadcast2 {A B C} (f : A -> B -> C) (xs : list A) (ys : list B)
  : option (list C) :=
  match xs, ys with
  | [x], _ => Some (map (f x) ys)
  | _, [y] => Some (map (fun x => f x y) xs)
  | _, _ =>
      if Nat.eqb (length xs) (length ys)
      then Some (map (fun p => f (fst p) (snd p)) (combine xs ys))
      else None
  end.

(** [tf.where cond x y] with a scalar [y]. *)
Definition tf_where (cond : list bool) (x : tensor) (y : dtype) : option tensor :=
  broadcast2 (fun (c : bool) (v : dtype) => if c then v else y) cond x.

(** [tf.reduce_sum t axis=-1] on a vector: the reduction of the tensor
    library. *)
Definition reduce_sum (t : tensor) : dtype := sum_entries t.

(** [tfd.Normal(loc, scale).log_prob(x)]: the parameters broadcast to the
    batch shape, and the batch against [x]. *)
Definition Normal_log_prob_tensor (loc scale x : tensor) : option tensor :=
  let* params := broadcast2 (fun m s => (m, s)) loc scale in
  broadcast2 (fun (p : dtype * dtype) v => normal_log_prob (fst p) (snd p) v) params x.

(** ** Likelihood *)

(** The terms handed to [tf.reduce_sum]: lines 71 to 75 of the source
    without the final sum. *)
Definition masked_log_probs (values : list dtype) (locs : tensor)
    (observation_noise_scale : dtype) : option tensor :=
  let* latents := tf_stack values in
  let* observed := tf_where (map is_finite locs) locs zero in
  let* lps := Normal_log_prob_tensor latents (newaxis observation_noise_scale) observed in
  tf_where (map is_finite locs) lps zero.

(** [brownian_motion_log_likelihood_fn].  Without a fixed scale the first
    two entries of [values] are unpacked as the two sampled scales (fewer
    than two entries fail to unpack) and the rest are the latents. *)
Definition brownian_motion_log_likelihood_fn (values : list dtype) (locs : tensor)
    (observation_noise_scale : option dtype) : option dtype :=
  let* (observation_noise_scale, values) :=
    match observation_noise_scale with
    | None =>
        match firstn 2 values with
        | [_; s] => Some (s, skipn 2 values)
        | _ => None
        end
    | Some s => Some (s, values)
    end in
  let observation_noise_scale := convert_to_tensor observation_noise_scale in
  let* terms := masked_log_probs values locs observation_noise_scale in
  Some (reduce_sum terms).

(** ** Prior generators *)

(** The distributions the generators yield, with the name given to each. *)
Inductive Distribution : Type :=
  | Normal (loc scale : dtype) (name : string)
  | LogNormal (loc scale : dtype) (name : string).

(** A yielded distribution is wrapped in [Root] when it depends on no
    earlier variable, and bare otherwise. *)
Inductive Yielded : Type :=
  | Root (d : Distribution)
  | Bare (d : Distribution).

(** A Python generator that is sent one sampled value per [yield]. *)
Inductive Generator : Type :=
  | Stop
  | Yield (y : Yielded) (k : dtype -> Generator).

Definition distribution_of (y : Yielded) : Distribution :=
  match y with
  | Root d => d
  | Bare d => d
  end.

Definition name_of (d : Distribution) : string :=
  match d with
  | Normal _ _ n => n
  | LogNormal _ _ n => n
  end.

(** [range(start, stop)]. *)
Definition range (start stop : Z) : list Z :=
  map (fun i => (start + Z.of_nat i)%Z) (seq 0 (Z.to_nat (stop - start))).

(** ['x_{}'.format(t)]. *)
Definition x_name (t : Z) : string :=
  String.append "x_"%string (NilZero.string_of_int (Z.to_int t)).

(** The [for t in range(1, num_timesteps)] loop of
    [brownian_motion_prior_fn], entered with the last sampled value. *)
Fixpoint for_timesteps (innovation_noise_scale : dtype) (ts : list Z) (new : dtype)
  : Generator :=
  match ts with
  | [] => Stop
  | t :: ts' =>
      Yield (Bare (Normal new innovation_noise_scale (x_name t)))
            (fun new' => for_timesteps innovation_noise_scale ts' new')
  end.

Definition brownian_motion_prior_fn (num_timesteps : Z) (innovation_noise_scale : dtype)
  : Generator :=
  let prior_loc := zero in
  Yield (Root (Normal prior_loc innovation_noise_scale "x_0"%string))
        (fun new => for_timesteps innovation_noise_scale (range 1 num_timesteps) new).

(** [yield from g], followed by [rest]. *)
Fixpoint yield_from (g rest : Generator) : Generator :=
  match g with
  | Stop => rest
  | Yield y k => Yield y (fun v => yield_from (k v) rest)
  end.

Definition brownian_motion_unknown_scales_prior_fn (num_timesteps : Z) : Generator :=
  Yield (Root (LogNormal zero two "innovation_noise_scale"%string))
    (fun innovation_noise_scale =>
  Yield (Root (LogNormal zero two "observation_noise_scale"%string))
    (fun _ =>
  yield_from (brownian_motion_prior_fn num_timesteps innovation_noise_scale) Stop)).

(** The joint distribution drives a generator: the value it sends back
    for the [i]-th yield is the sample it drew for that distribution.
    The run records every yielded distribution with its sample. *)
Fixpoint run (sample : nat -> Yielded -> dtype) (i : nat) (g : Generator)
  : list (Yielded * dtype) :=
  match g with
  | Stop => []
  | Yield y k => let v := sample i y in (y, v) :: run sample (S i) (k v)
  end.

(** The field names of the structure of a joint distribution: one per
    yielded distribution, read off a run of the generator. *)
Definition flat_resolve_names (g : Generator) : list string :=
  map (fun p => name_of (distribution_of (fst p))) (run (fun _ _ => zero) 0 g).

(** The class of [prior.dtype] called on unpacked arguments: it is the
    named-tuple class of the structure.  Every field defaults to [None],
    so with fewer arguments than fields the last fields hold [None];
    more arguments than fields are a [TypeError]. *)
Definition structtuple {A} (fields : list string) (args : list A)
  : option (list (string * option A)) :=
  if Nat.ltb (length fields) (length args)
  then None
  else Some (combine fields
               (map Some args ++ repeat None (length fields - length args))).

(** ** Models *)

(** [functools.partial(brownian_motion_log_likelihood_fn, locs=...,
    observation_noise_scale=...)]: the bound keyword arguments. *)
Record PartialLogLikelihood : Type := {
  bound_locs : tensor;
  bound_observation_noise_scale : option dtype
}.

Definition call (p : PartialLogLikelihood) (values : list dtype) : option dtype :=
  brownian_motion_log_likelihood_fn values (bound_locs p) (bound_observation_noise_scale p).

(** The dictionary the unknown-scales identity returns. *)
Record ScalesAndLocs : Type := {
  innovation_noise_scale : dtype;
  observation_noise_scale : dtype;
  locs : tensor
}.

Inductive Ext : Type :=
  | ExtArray (a : tensor)
  | ExtDict (d : ScalesAndLocs).

Record SampleTransformation : Type := {
  fn : list dtype -> option Ext;
  transformation_pretty_name : string
}.

(** What a constructed model holds. *)
Record BayesianModel : Type := {
  _prior_dist : Generator;
  _log_likelihood_fn : PartialLogLikelihood;
  default_event_space_bijector : list (string * option Bijector);
  name : string;
  pretty_name : string;
  sample_transformations : list (string * SampleTransformation)
}.

(** [_ext_identity] of [BrownianMotion]. *)
Definition BrownianMotion_ext_identity (params : list dtype) : option Ext :=
  let* stacked := tf_stack params in
  Some (ExtArray stacked).

(** [BrownianMotion.__init__]; [locs.shape[0]] is the length of [locs]. *)
Definition BrownianMotion_init (locs : tensor)
    (innovation_noise_scale observation_noise_scale : dtype)
    (name pretty_name : string) : option BayesianModel :=
  let num_timesteps := Z.of_nat (length locs) in
  let prior_dist := brownian_motion_prior_fn num_timesteps innovation_noise_scale in
  let log_likelihood_fn :=
    {| bound_locs := locs;
       bound_observation_noise_scale := Some observation_noise_scale |} in
  let sample_transformations :=
    [("identity"%string,
      {| fn := BrownianMotion_ext_identity;
         transformation_pretty_name := "Identity"%string |})] in
  let* event_space_bijector :=
    structtuple (flat_resolve_names prior_dist)
                (repeat Identity (Z.to_nat num_timesteps)) in
  Some {| _prior_dist := prior_dist;
          _log_likelihood_fn := log_likelihood_fn;
          default_event_space_bijector := event_space_bijector;
          name := name;
          pretty_name := pretty_name;
          sample_transformations := sample_transformations |}.

(** [_ext_identity] of [BrownianMotionUnknownScales]; indexing past the
    end of [params] is an [IndexError]. *)
Definition BrownianMotionUnknownScales_ext_identity (params : list dtype) : option Ext :=
  let* p0 := nth_error params 0 in
  let* p1 := nth_error params 1 in
  let* stacked := tf_stack (skipn 2 params) in
  Some (ExtDict {| innovation_noise_scale := p0;
                   observation_noise_scale := p1;
                   locs := stacked |}).

(** [BrownianMotionUnknownScales.__init__]. *)
Definition BrownianMotionUnknownScales_init (locs : tensor)
    (name pretty_name : string) : option BayesianModel :=
  let num_timesteps := Z.of_nat (length locs) in
  let prior_dist := brownian_motion_unknown_scales_prior_fn num_timesteps in
  let log_likelihood_fn :=
    {| bound_locs := locs; bound_observation_noise_scale := None |} in
  let sample_transformations :=
    [("identity"%string,
      {| fn := BrownianMotionUnknownScales_ext_identity;
         transformation_pretty_name := "Identity"%string |})] in
  let* event_space_bijector :=
    structtuple (flat_resolve_names prior_dist)
                ([Softplus; Softplus] ++ repeat Identity (Z.to_nat num_timesteps)) in
  Some {| _prior_dist := prior_dist;
          _log_likelihood_fn := log_likelihood_fn;
          default_event_space_bijector := event_space_bijector;
          name := name;
          pretty_name := pretty_name;
          sample_transformations := sample_transformations |}.

(** What [data.brownian_motion_missing_middle_observations()] returns;
    the dataset itself is not part of this file and is a parameter. *)
Record Dataset : Type := {
  dataset_locs : tensor;
  dataset_innovation_noise_scale : dtype;
  dataset_observation_noise_scale : dtype
}.

Definition BrownianMotionMissingMiddleObservations_init (dataset : Dataset)
  : option BayesianModel :=
  BrownianMotion_init (dataset_locs dataset)
    (dataset_innovation_noise_scale dataset)
    (dataset_observation_noise_scale dataset)
    "brownian_motion_missing_middle_observations"%string
    "Brownian Motion Missing Middle Observations"%string.

(** The two scales are deleted from the dataset before the call. *)
Definition BrownianMotionUnknownScalesMissingMiddleObservations_init (dataset : Dataset)
  : option BayesianModel :=
  BrownianMotionUnknownScales_init (dataset_locs dataset)
    "brownian_motion_unknown_scales_missing_middle_observations"%string
    "Brownian Motion with Unknown Scales"%string.

(** The two methods the classes define.  A method receives the object
    and returns it next to its result, so that what it does to the
    object is part of what it computes. *)
Definition _prior_distribution (self : BayesianModel) : Generator * BayesianModel :=
  (_prior_dist self, self).

Definition log_likelihood (self : BayesianModel) (value : list dtype)
  : option dtype * BayesianModel :=
  (call (_log_likelihood_fn self) value, self).

End Model.

(** ** The binary32 engine *)

(** IEEE 754 binary32 with round-to-nearest-even, from the standard
    library's specification of floating-point numbers.  Three things are
    the runtime's own and are parameters of the engine: whether
    subnormal numbers are kept or flushed to zero, on the way into an
    operation and on the way out of it; the logarithm [flog], which no
    standard fixes bit for bit; and the reduction [fsum] of a vector to
    the sum of its entries. *)
Module Binary32.

Definition prec : Z := 24.
Definition emax : Z := 128.

Definition f32_zero : spec_float := S754_zero false.
Definition f32_one : spec_float := S754_finite false 8388608 (-23).
Definition f32_two : spec_float := S754_finite false 8388608 (-22).
Definition f32_neg_half : spec_float := S754_finite true 8388608 (-24).

(** [0.5 * np.log(2. * np.pi)] rounded to binary32: 0.91893852. *)
Definition f32_half_log_two_pi : spec_float := S754_finite false 15417230 (-24).

(** The largest finite binary32, [(2^24 - 1) * 2^104], about 3.4028e38. *)
Definition f32_max : spec_float := S754_finite false 16777215 104.

Definition f32_is_finite (x : spec_float) : bool :=
  match x with
  | S754_zero _ => true
  | S754_finite _ _ _ => true
  | S754_infinity _ => false
  | S754_nan => false
  end.

Definition f32_is_positive (x : spec_float) : bool := SFltb f32_zero x.

(** What the runtime does with subnormal numbers: whether it reads a
    subnormal operand as zero, and whether it writes a subnormal result
    as zero.  With both off the arithmetic is the standard's, with
    gradual underflow. *)
Record Denormals : Type := {
  flush_inputs : bool;
  flush_outputs : bool
}.

Definition flush (on : bool) (x : spec_float) : spec_float :=
  if on
  then match SFclassify prec x with
       | FloatClass.PSubn => S754_zero false
       | FloatClass.NSubn => S754_zero true
       | _ => x
       end
  else x.

Section Runtime.

Variable denormals : Denormals.
Variable flog : spec_float -> spec_float.
Variable fsum : list spec_float -> spec_float.

(** An operation of the format under the runtime's treatment of
    subnormal numbers. *)
Definition operation (op : Z -> Z -> spec_float -> spec_float -> spec_float)
    (x y : spec_float) : spec_float :=
  flush (flush_outputs denormals)
    (op prec emax (flush (flush_inputs denormals) x)
                  (flush (flush_inputs denormals) y)).

Definition arith : Arith spec_float :=
  {| a_add := operation SFadd;
     a_sub := operation SFsub;
     a_mul := operation SFmul;
     a_div := operation SFdiv;
     a_log := flog;
     a_neg_half := f32_neg_half;
     a_half_log_two_pi := f32_half_log_two_pi |}.

Definition engine : Engine :=
  {| dtype := spec_float;
     zero := f32_zero;
     two := f32_two;
     add := operation SFadd;
     sum_entries := fsum;
     is_finite := f32_is_finite;
     is_positive := f32_is_positive;
     normal_log_prob := Normal_log_prob arith |}.

End Runtime.

End Binary32.

(** ** The exact engine *)

(** The same special values, with the arithmetic of the real numbers on
    the finite ones: no rounding and no overflow.  Its reduction adds
    from left to right; the addition is associative and commutative, so
    every other order gives the same sum. *)
Module Exact.

Inductive xreal : Type :=
  | Fin (r : R)
  | PInf
  | NInf
  | NaN.

Definition inf (negative : bool) : xreal := if negative then NInf else PInf.

Definition negative (r : R) : bool := if Rlt_dec r 0 then true else false.

Definition is_zero (r : R) : bool := if Req_dec_T r 0 then true else false.

Definition xopp (x : xreal) : xreal :=
  match x with
  | Fin r => Fin (- r)
  | PInf => NInf
  | NInf => PInf
  | NaN => NaN
  end.

Definition xadd (x y : xreal) : xreal :=
  match x, y with
  | NaN, _ | _, NaN => NaN
  | Fin a, Fin b => Fin (a + b)
  | PInf, NInf | NInf, PInf => NaN
  | PInf, _ | _, PInf => PInf
  | NInf, _ | _, NInf => NInf
  end.

Definition xsub (x y : xreal) : xreal := xadd x (xopp y).

Definition xmul (x y : xreal) : xreal :=
  match x, y with
  | NaN, _ | _, NaN => NaN
  | Fin a, Fin b => Fin (a * b)
  | Fin a, PInf | PInf, Fin a => if is_zero a then NaN else inf (negative a)
  | Fin a, NInf | NInf, Fin a => if is_zero a then NaN else inf (negb (negative a))
  | PInf, PInf | NInf, NInf => PInf
  | PInf, NInf | NInf, PInf => NInf
  end.

Definition xdiv (x y : xreal) : xreal :=
  match x, y with
  | NaN, _ | _, NaN => NaN
  | Fin a, Fin b =>
      if is_zero b
      then (if is_zero a then NaN else inf (negative a))
      else Fin (a / b)
  | Fin _, PInf | Fin _, NInf => Fin 0
  | PInf, Fin b => inf (negative b)
  | NInf, Fin b => inf (negb (negative b))
  | _, _ => NaN
  end.

Definition xlog (x : xreal) : xreal :=
  match x with
  | Fin r => if is_zero r then NInf else if negative r then NaN else Fin (ln r)
  | PInf => PInf
  | NInf => NaN
  | NaN => NaN
  end.

Definition x_is_finite (x : xreal) : bool :=
  match x with
  | Fin _ => true
  | _ => false
  end.

Definition x_is_positive (x : xreal) : bool :=
  match x with
  | Fin r => if Rlt_dec 0 r then true else false
  | PInf => true
  | _ => false
  end.

Definition arith : Arith xreal :=
  {| a_add := xadd;
     a_sub := xsub;
     a_mul := xmul;
     a_div := xdiv;
     a_log := xlog;
     a_neg_half := Fin (- / 2);
     a_half_log_two_pi := Fin (/ 2 * ln (2 * PI)) |}.

Definition engine : Engine :=
  {| dtype := xreal;
     zero := Fin 0;
     two := Fin 2;
     add := xadd;
     sum_entries := fun t => fold_left xadd t (Fin 0);
     is_finite := x_is_finite;
     is_positive := x_is_positive;
     normal_log_prob := Normal_log_prob arith |}.

End Exact.

(** ** Vocabulary of the properties *)

Section Vocabulary.

Context {E : Engine}.

(** An observation is missing when the mask of the likelihood drops it. *)
Definition missing (x : dtype) : bool := negb (is_finite x).

(** The contribution of one timestep, given as the pair of its latent
    position and its observed loc: the Normal log-density of the loc
    when it is observed, zero when it is missing. *)
Definition timestep_term (scale : dtype) (p : dtype * dtype) : dtype :=
  if missing (snd p) then zero else normal_log_prob (fst p) scale (snd p).

(** The log-densities of the observed timesteps alone, in order. *)
Definition observed_log_probs (scale : dtype) (values : list dtype) (locs : tensor)
  : tensor :=
  map (fun p => normal_log_prob (fst p) scale (snd p))
      (filter (fun p => negb (missing (snd p))) (combine values locs)).

(** Two entries of a locs array that the mask cannot tell apart: the
    same value, or two missing ones. *)
Definition same_observation (x y : dtype) : Prop :=
  x = y \/ (missing x = true /\ missing y = true).

(** A yielded distribution is a latent position when it is a Normal. *)
Definition is_latent (y : Yielded) : bool :=
  match distribution_of y with
  | Normal _ _ _ => true
  | LogNormal _ _ _ => false
  end.


(** The reduction of the engine adds the entries of a vector up, in an
    order and a grouping of its own. *)
Definition adds_up_in_some_order : Prop :=
  forall t : tensor, sums add zero t (reduce_sum t).

(** No addition a reduction of [terms] could perform overflows: the sum
    of one part of the terms and the sum of another part, both finite,
    add to a finite value. *)
Definition no_sum_overflows (terms : tensor) : Prop :=
  forall (part1 part2 rest : tensor) (a b : dtype),
    Permutation terms (part1 ++ part2 ++ rest) ->
    sums add zero part1 a -> sums add zero part2 b ->
    is_finite a = true -> is_finite b = true ->
    is_finite (add a b) = true.

(** A yielded distribution is a Normal at the given scale. *)
Definition normal_at (scale : dtype) (y : Yielded) : Prop :=
  exists loc name, distribution_of y = Normal loc scale name.

(** The distributions the prior of a model yields under a sampler. *)
Definition prior_variables (self : BayesianModel) (sample : nat -> Yielded -> dtype)
  : list Yielded :=
  map fst (run sample 0 (_prior_dist self)).

(** The prior of a fixed-scales model over [locs]: one latent position
    per entry of [locs], each a Normal at the innovation noise scale,
    and nothing else. *)
Definition one_latent_per_loc (self : BayesianModel) (locs : tensor)
    (innovation_noise_scale : dtype) : Prop :=
  forall sample,
    length (prior_variables self sample) = length locs
    /\ Forall (fun y => is_latent y = true) (prior_variables self sample)
    /\ Forall (normal_at innovation_noise_scale) (prior_variables self sample).

(** The prior of an unknown-scales model over [locs]: the two scale
    variables, then one latent position per entry of [locs], each a
    Normal at the value sampled for the first scale. *)
Definition two_scales_then_one_latent_per_loc (self : BayesianModel) (locs : tensor)
  : Prop :=
  forall sample,
    exists scale1 scale2 latents,
      prior_variables self sample = scale1 :: scale2 :: latents
      /\ is_latent scale1 = false /\ is_latent scale2 = false
      /\ length latents = length locs
      /\ Forall (fun y => is_latent y = true) latents
      /\ Forall (normal_at (sample 0 scale1)) latents.





End Vocabulary.

(** ** Concrete inputs *)

(** Inputs in the exact engine at which the statements below are
    instantiated: a sampler that answers the [i]-th yield with [i], an
    array of three locs whose middle observation is missing, and a
    dataset over it. *)
Module Inputs.

Import Exact.

Definition sampler : nat -> @Yielded engine -> xreal := fun i _ => Fin (INR i).

Definition three_locs : @tensor engine := [Fin 1; NaN; Fin 2].

Definition three_locs_dataset : @Dataset engine :=
  {| dataset_locs := three_locs;
     dataset_innovation_noise_scale := Fin 1;
     dataset_observation_noise_scale := Fin 1 |}.

End Inputs.

(** ** Vocabulary of the further properties *)

Section FurtherVocabulary.

Context {E : Engine}.

(** Two vector lengths that broadcast against each other: equal, or one
    of them one. *)
Definition broadcastable (n m : nat) : bool :=
  Nat.eqb n m || Nat.eqb n 1 || Nat.eqb m 1.

(** The names of the variables of a run, in the order they were
    yielded. *)
Definition names_of (trace : list (Yielded * dtype)) : list string :=
  map (fun p => name_of (distribution_of (fst p))) trace.

(** The names the prior gives its latent positions: [x_0], then [x_t]
    for every [t] of [range(1, num_timesteps)]. *)
Definition latent_names (num_timesteps : Z) : list string :=
  "x_0"%string :: map x_name (range 1 num_timesteps).

(** The components of what an identity transformation returned, in the
    order of the sample: the array, or the two scales and then the
    locs. *)
Definition components (e : Ext) : list dtype :=
  match e with
  | ExtArray a => a
  | ExtDict d => innovation_noise_scale d :: observation_noise_scale d :: locs d
  end.

End FurtherVocabulary.

(** ** Broadcasting and the masked terms *)

Section LikelihoodFacts.

Context {E : Engine}.

Lemma broadcast2_same_length {A B C} (f : A -> B -> C) xs ys :
  length xs = length ys ->
  broadcast2 f xs ys = Some (map (fun p => f (fst p) (snd p)) (combine xs ys)).
Proof.
  intros Hlen. unfold broadcast2.
  destruct xs as [|x [|x' xs]]; destruct ys as [|y [|y' ys]];
    simpl in Hlen; try discriminate; try reflexivity.
  injection Hlen as Hlen. simpl.
  apply Nat.eqb_eq in Hlen. rewrite Hlen. reflexivity.
Qed.

Lemma broadcast2_scalar_r {A B C} (f : A -> B -> C) xs y :
  broadcast2 f xs [y] = Some (map (fun x => f x y) xs).
Proof.
  unfold broadcast2. destruct xs as [|x [|x' xs]]; reflexivity.
Qed.

(** The three ways a broadcast succeeds. *)
Lemma broadcast2_Some {A B C} (f : A -> B -> C) xs ys zs :
  broadcast2 f xs ys = Some zs ->
  (exists x, xs = [x] /\ zs = map (f x) ys)
  \/ (exists y, ys = [y] /\ zs = map (fun x => f x y) xs)
  \/ (length xs = length ys
      /\ zs = map (fun p => f (fst p) (snd p)) (combine xs ys)).
Proof.
  unfold broadcast2. intros H.
  destruct xs as [|x [|x' xs]].
  - destruct ys as [|y [|y' ys]].
    + right. right. injection H as <-. now split.
    + right. left. exists y. injection H as <-. now split.
    + discriminate.
  - left. exists x. injection H as <-. now split.
  - destruct ys as [|y [|y' ys]].
    + discriminate.
    + right. left. exists y. injection H as <-. now split.
    + right. right.
      destruct (Nat.eqb _ _) eqn:Heq; [|discriminate].
      apply Nat.eqb_eq in Heq. injection H as <-. now split.
Qed.

(** Every entry of a broadcast result is the operation at an entry of
    each argument. *)
Lemma broadcast2_In {A B C} (f : A -> B -> C) xs ys zs z :
  broadcast2 f xs ys = Some zs -> In z zs ->
  exists x y, In x xs /\ In y ys /\ z = f x y.
Proof.
  intros H Hz.
  destruct (broadcast2_Some f xs ys H)
    as [(x & -> & ->) | [(y & -> & ->) | (Hlen & ->)]].
  - apply in_map_iff in Hz. destruct Hz as (y & <- & Hy).
    exists x, y. simpl. auto.
  - apply in_map_iff in Hz. destruct Hz as (x & <- & Hx).
    exists x, y. simpl. auto.
  - apply in_map_iff in Hz. destruct Hz as ([x y] & <- & Hxy).
    exists x, y. split; [|split; [|reflexivity]].
    + eapply in_combine_l; eauto.
    + eapply in_combine_r; eauto.
Qed.

Lemma broadcast2_nonempty {A B C} (f : A -> B -> C) xs ys zs :
  broadcast2 f xs ys = Some zs -> xs <> [] -> ys <> [] -> zs <> [].
Proof.
  intros H Hx Hy.
  destruct (broadcast2_Some f xs ys H)
    as [(x & -> & ->) | [(y & -> & ->) | (Hlen & ->)]].
  - destruct ys; [congruence | discriminate].
  - destruct xs; [congruence | discriminate].
  - destruct xs, ys; try congruence; discriminate.
Qed.

Lemma nth_error_combine {A B} (l1 : list A) (l2 : list B) n a b :
  nth_error l1 n = Some a -> nth_error l2 n = Some b ->
  nth_error (combine l1 l2) n = Some (a, b).
Proof.
  revert l1 l2. induction n as [|n IH]; intros [|x l1] [|y l2]; simpl;
    try discriminate.
  - now intros [= ->] [= ->].
  - apply IH.
Qed.

(** Where the condition is false, [tf.where] puts its scalar. *)
Lemma tf_where_false (cond : list bool) (x terms : tensor) (y : dtype) (i : nat) :
  tf_where cond x y = Some terms -> x <> [] ->
  nth_error cond i = Some false ->
  nth_error terms i = Some y.
Proof.
  unfold tf_where. intros H Hx Hi.
  destruct (broadcast2_Some _ cond x H)
    as [(c & -> & ->) | [(v & -> & ->) | (Hlen & ->)]].
  - destruct i as [|i]; simpl in Hi; [|destruct i; discriminate].
    injection Hi as ->. destruct x; [congruence | reflexivity].
  - rewrite nth_error_map, Hi. reflexivity.
  - destruct (nth_error x i) as [v|] eqn:Hv.
    + rewrite nth_error_map, (nth_error_combine cond x i Hi Hv). reflexivity.
    + apply nth_error_None in Hv.
      assert (i < length cond) by (apply nth_error_Some; congruence). lia.
Qed.

Lemma tf_where_mask (l : tensor) :
  tf_where (map is_finite l) l zero
  = Some (map (fun x => if is_finite x then x else zero) l).
Proof.
  unfold tf_where. rewrite broadcast2_same_length by apply length_map.
  f_equal. induction l as [|x l IH]; simpl; [reflexivity|].
  now rewrite IH.
Qed.

Lemma tf_stack_nonempty (values : list dtype) :
  values <> [] -> tf_stack values = Some values.
Proof.
  destruct values; [congruence | reflexivity].
Qed.

Lemma tf_stack_Some (values : list dtype) (latents : tensor) :
  tf_stack values = Some latents -> latents = values /\ values <> [].
Proof.
  destruct values; [discriminate|]. intros [= <-]. split; [reflexivity | discriminate].
Qed.

(** The steps of a successful evaluation of the masked terms. *)
Lemma masked_log_probs_Some (values : list dtype) (locs terms : tensor) (scale : dtype) :
  masked_log_probs values locs scale = Some terms ->
  values <> []
  /\ exists lps,
       broadcast2 (fun (p : dtype * dtype) v => normal_log_prob (fst p) (snd p) v)
         (map (fun m => (m, scale)) values)
         (map (fun x => if is_finite x then x else zero) locs) = Some lps
       /\ tf_where (map is_finite locs) lps zero = Some terms.
Proof.
  unfold masked_log_probs, Normal_log_prob_tensor, newaxis.
  destruct (tf_stack values) as [latents|] eqn:Hstack; [|discriminate].
  apply tf_stack_Some in Hstack. destruct Hstack as [-> Hsome].
  cbn [bind]. rewrite tf_where_mask. cbn [bind].
  rewrite broadcast2_scalar_r. cbn [bind].
  destruct (broadcast2 _ _ _) as [lps|] eqn:Hlps; [|discriminate].
  cbn [bind]. intros Hterms. split; [exact Hsome|].
  exists lps. now split.
Qed.

Lemma log_likelihood_Some (values : list dtype) (locs : tensor) (scale r : dtype) :
  brownian_motion_log_likelihood_fn values locs (Some scale) = Some r ->
  exists terms, masked_log_probs values locs scale = Some terms /\ r = reduce_sum terms.
Proof.
  unfold brownian_motion_log_likelihood_fn, convert_to_tensor. cbn [bind]. cbv zeta.
  destruct (masked_log_probs values locs scale) as [terms|]; [|discriminate].
  cbn [bind]. intros [= <-]. now exists terms.
Qed.

(** With one latent per timestep, and at least one, no error occurs and
    the terms summed are the per-timestep contributions. *)
Lemma masked_log_probs_aligned (values : list dtype) (locs : tensor) (scale : dtype) :
  length values = length locs -> values <> [] ->
  masked_log_probs values locs scale
  = Some (map (timestep_term scale) (combine values locs)).
Proof.
  intros Hlen Hne. unfold masked_log_probs, Normal_log_prob_tensor, newaxis.
  rewrite (tf_stack_nonempty Hne). cbn [bind].
  rewrite tf_where_mask. cbn [bind].
  rewrite broadcast2_scalar_r. cbn [bind].
  rewrite broadcast2_same_length by (now rewrite !length_map).
  cbn [bind]. unfold tf_where.
  rewrite broadcast2_same_length
    by (rewrite !length_map, length_combine, !length_map; lia).
  f_equal. clear Hlen Hne. revert locs.
  induction values as [|v values IH]; intros [|x locs]; simpl; try reflexivity.
  rewrite IH. f_equal.
  unfold timestep_term, missing. simpl. now destruct (is_finite x).
Qed.

Lemma log_likelihood_aligned (values : list dtype) (locs : tensor) (scale : dtype) :
  length values = length locs -> values <> [] ->
  brownian_motion_log_likelihood_fn values locs (Some scale)
  = Some (reduce_sum (map (timestep_term scale) (combine values locs))).
Proof.
  intros Hlen Hne. unfold brownian_motion_log_likelihood_fn, convert_to_tensor. cbn [bind]. cbv zeta.
  now rewrite masked_log_probs_aligned.
Qed.

(** The likelihood sees a locs array only through which entries are
    missing and the values of the others. *)
Lemma mask_same_observation (locs locs' : tensor) :
  Forall2 same_observation locs locs' ->
  map is_finite locs = map is_finite locs'
  /\ map (fun x => if is_finite x then x else zero) locs
     = map (fun x => if is_finite x then x else zero) locs'.
Proof.
  induction 1 as [|x y l l' Hxy _ [IH1 IH2]]; simpl; [now split|].
  rewrite IH1, IH2. unfold same_observation, missing in Hxy.
  destruct Hxy as [-> | [Hx Hy]]; [now split|].
  apply negb_true_iff in Hx, Hy. rewrite Hx, Hy. now split.
Qed.

Lemma masked_log_probs_same_observation (values : list dtype) (locs locs' : tensor)
    (scale : dtype) :
  Forall2 same_observation locs locs' ->
  masked_log_probs values locs scale = masked_log_probs values locs' scale.
Proof.
  intros H. apply mask_same_observation in H. destruct H as [Hmask Hobs].
  unfold masked_log_probs. rewrite !tf_where_mask, Hmask, Hobs. reflexivity.
Qed.

Lemma same_observation_refl (l : tensor) : Forall2 same_observation l l.
Proof.
  induction l; constructor; [now left | assumption].
Qed.

(** When every observation is missing, every term is zero. *)
Lemma terms_all_missing (values : list dtype) (locs terms : tensor) (scale : dtype) :
  masked_log_probs values locs scale = Some terms ->
  Forall (fun x => missing x = true) locs ->
  Forall (fun t => t = zero) terms.
Proof.
  intros H Hall. apply masked_log_probs_Some in H.
  destruct H as (_ & lps & _ & Hterms).
  apply Forall_forall. intros t Ht.
  destruct (broadcast2_In _ _ _ t Hterms Ht) as (c & lp & Hc & _ & ->).
  apply in_map_iff in Hc. destruct Hc as (x & <- & Hx).
  rewrite Forall_forall in Hall. specialize (Hall x Hx).
  unfold missing in Hall. apply negb_true_iff in Hall. now rewrite Hall.
Qed.

Lemma combine_app_aligned {A B} (a1 a2 : list A) (b1 b2 : list B) :
  length a1 = length b1 ->
  combine (a1 ++ a2) (b1 ++ b2) = combine a1 b1 ++ combine a2 b2.
Proof.
  revert b1. induction a1 as [|x a1 IH]; intros [|y b1] Hlen;
    simpl in *; try discriminate; [reflexivity|].
  injection Hlen as Hlen. now rewrite IH.
Qed.

(** With one latent per timestep, the term of a timestep is the
    log-density of its loc when the loc is finite, and zero when it is
    not. *)
Lemma nth_term_aligned (values : list dtype) (locs : tensor) (scale : dtype)
    (t : nat) (v x : dtype) :
  nth_error values t = Some v -> nth_error locs t = Some x ->
  nth_error (map (timestep_term scale) (combine values locs)) t
  = Some (if is_finite x then normal_log_prob v scale x else zero).
Proof.
  intros Hv Hx.
  rewrite nth_error_map, (nth_error_combine _ _ _ Hv Hx). simpl.
  unfold timestep_term, missing. simpl. now destruct (is_finite x).
Qed.

Lemma nth_timestep_term (vpre vpost : list dtype) (lpre lpost : tensor)
    (v x scale : dtype) :
  length vpre = length lpre ->
  nth_error (map (timestep_term scale)
               (combine (vpre ++ v :: vpost) (lpre ++ x :: lpost)))
            (length lpre)
  = Some (if is_finite x then normal_log_prob v scale x else zero).
Proof.
  intros Hpre. rewrite combine_app_aligned by exact Hpre.
  rewrite map_app, nth_error_app2 by (rewrite length_map, length_combine; lia).
  rewrite length_map, length_combine, Hpre, Nat.min_id, Nat.sub_diag.
  simpl. unfold timestep_term, missing. simpl. now destruct (is_finite x).
Qed.

(** *** Sums in an order of the library's own *)

(** Adding from left to right is one of the orders. *)
Lemma sums_fold_left (t : tensor) : sums add zero t (fold_left add t zero).
Proof.
  induction t as [|x t IH] using rev_ind; [constructor|].
  rewrite fold_left_app. simpl.
  eapply sums_split; [reflexivity | exact IH | constructor].
Qed.

(** Zeros add up to zero, in every order. *)
Lemma sums_all_zero (t : tensor) (r : dtype) :
  add zero zero = zero ->
  sums add zero t r -> Forall (fun x => x = zero) t -> r = zero.
Proof.
  intros H0 Hs.
  induction Hs as [|x|l l1 l2 r1 r2 Hp _ IH1 _ IH2]; intros Hall.
  - reflexivity.
  - now inversion Hall.
  - apply (Permutation_Forall Hp) in Hall. apply Forall_app in Hall.
    destruct Hall as [Hl1 Hl2]. now rewrite IH1, IH2.
Qed.

(** Finite terms none of whose partial sums overflows add up to a
    finite value, in every order. *)
Lemma sums_finite (terms part rest : tensor) (r : dtype) :
  is_finite zero = true -> no_sum_overflows terms ->
  Permutation terms (part ++ rest) ->
  sums add zero part r ->
  Forall (fun t => is_finite t = true) part ->
  is_finite r = true.
Proof.
  intros Hz Hno Hp Hs. revert rest Hp.
  induction Hs as [|x|l l1 l2 r1 r2 Hl Hs1 IH1 Hs2 IH2]; intros rest Hp Hall.
  - exact Hz.
  - now inversion Hall.
  - apply (Permutation_Forall Hl) in Hall. apply Forall_app in Hall.
    destruct Hall as [Hl1 Hl2].
    assert (Hp' : Permutation terms (l1 ++ l2 ++ rest)).
    { rewrite Hp, Hl. now rewrite <- app_assoc. }
    apply (Hno l1 l2 rest); [exact Hp' | exact Hs1 | exact Hs2 | |].
    + apply (IH1 (l2 ++ rest)); assumption.
    + apply (IH2 (l1 ++ rest)); [|assumption].
      rewrite Hp'. apply Permutation_app_swap_app.
Qed.

(** *** Sums where the addition is a commutative monoid *)

Section Monoid.

Hypothesis add_assoc : forall a b c, add (add a b) c = add a (add b c).
Hypothesis add_comm : forall a b, add a b = add b a.
Hypothesis add_zero_l : forall a, add zero a = a.

Lemma fold_right_add_app (l1 l2 : tensor) :
  fold_right add zero (l1 ++ l2)
  = add (fold_right add zero l1) (fold_right add zero l2).
Proof.
  induction l1 as [|x l1 IH]; simpl; [now rewrite add_zero_l|].
  now rewrite IH, add_assoc.
Qed.

Lemma fold_right_add_permutation (l l' : tensor) :
  Permutation l l' -> fold_right add zero l = fold_right add zero l'.
Proof.
  induction 1 as [|x l l' _ IH|x y l|l l' l'' _ IH1 _ IH2]; simpl.
  - reflexivity.
  - now rewrite IH.
  - rewrite <- !add_assoc. now rewrite (add_comm y x).
  - now rewrite IH1.
Qed.

(** Every order gives the sum from left to right. *)
Lemma sums_fold_right (t : tensor) (r : dtype) :
  sums add zero t r -> r = fold_right add zero t.
Proof.
  induction 1 as [|x|l l1 l2 r1 r2 Hp _ IH1 _ IH2]; simpl.
  - reflexivity.
  - now rewrite add_comm, add_zero_l.
  - now rewrite (fold_right_add_permutation Hp), fold_right_add_app, IH1, IH2.
Qed.

(** The zero terms of the missing timesteps drop out of the sum. *)
Lemma fold_right_terms_observed (scale : dtype) (ps : list (dtype * dtype)) :
  fold_right add zero (map (timestep_term scale) ps)
  = fold_right add zero
      (map (fun p => normal_log_prob (fst p) scale (snd p))
           (filter (fun p => negb (missing (snd p))) ps)).
Proof.
  induction ps as [|p ps IH]; simpl; [reflexivity|].
  rewrite IH. unfold timestep_term.
  destruct (missing (snd p)); simpl; [apply add_zero_l | reflexivity].
Qed.

End Monoid.

End LikelihoodFacts.

(** ** Facts about the two engines *)

Module ExactFacts.

Import Exact.
Local Open Scope R_scope.

Lemma xadd_zero_r (x : xreal) : xadd x (Fin 0) = x.
Proof.
  destruct x; simpl; try reflexivity.
  f_equal. lra.
Qed.

Lemma xadd_zero_l (x : xreal) : xadd (Fin 0) x = x.
Proof.
  destruct x; simpl; try reflexivity.
  f_equal. lra.
Qed.

Lemma xadd_assoc (a b c : xreal) : xadd (xadd a b) c = xadd a (xadd b c).
Proof.
  destruct a, b, c; simpl; try reflexivity.
  f_equal. lra.
Qed.

Lemma xadd_comm (a b : xreal) : xadd a b = xadd b a.
Proof.
  destruct a, b; simpl; try reflexivity.
  f_equal. lra.
Qed.

Lemma xadd_finite (a b : xreal) :
  x_is_finite a = true -> x_is_finite b = true -> x_is_finite (xadd a b) = true.
Proof.
  destruct a, b; simpl; intros; congruence.
Qed.

(** The reduction of the exact engine adds the entries up, and none of
    its additions overflows. *)
Lemma adds_up : @adds_up_in_some_order engine.
Proof.
  intros t. apply (@sums_fold_left engine).
Qed.

Lemma never_overflows (terms : @tensor engine) : @no_sum_overflows engine terms.
Proof.
  intros part1 part2 rest a b _ _ _. apply xadd_finite.
Qed.

Lemma positive_not_zero (r : R) : 0 < r -> is_zero r = false.
Proof.
  intros Hr. unfold is_zero. destruct (Req_dec_T r 0); [lra | reflexivity].
Qed.

Lemma positive_not_negative (r : R) : 0 < r -> negative r = false.
Proof.
  intros Hr. unfold negative. destruct (Rlt_dec r 0); [lra | reflexivity].
Qed.

Lemma x_is_positive_one : x_is_positive (Fin 1) = true.
Proof.
  simpl. destruct (Rlt_dec 0 1); [reflexivity | lra].
Qed.

Lemma x_is_positive_Fin (r : R) : x_is_positive (Fin r) = true -> 0 < r.
Proof.
  simpl. destruct (Rlt_dec 0 r); [trivial | discriminate].
Qed.

(** On finite arguments and a finite positive scale the log-density is
    the real number the formula denotes. *)
Lemma log_prob_Fin (m s x : R) :
  0 < s ->
  Normal_log_prob arith (Fin m) (Fin s) (Fin x)
  = Fin (- / 2 * ((x / s + - (m / s)) * (x / s + - (m / s)))
         + - (/ 2 * ln (2 * PI) + ln s)).
Proof.
  intros Hs. unfold Normal_log_prob, squared_difference. simpl.
  rewrite (positive_not_zero Hs), (positive_not_negative Hs). reflexivity.
Qed.

Lemma log_prob_finite (m s x : xreal) :
  x_is_finite m = true -> x_is_finite s = true -> x_is_positive s = true ->
  x_is_finite x = true ->
  x_is_finite (Normal_log_prob arith m s x) = true.
Proof.
  destruct m as [m| | |], s as [s| | |], x as [x| | |]; try discriminate.
  intros _ _ Hs _. apply x_is_positive_Fin in Hs.
  now rewrite (log_prob_Fin m x Hs).
Qed.

End ExactFacts.

Module Binary32Facts.

Import Binary32.

(** Flushing subnormal numbers touches no value that is not finite. *)
Lemma flush_not_finite (on : bool) (v : spec_float) :
  f32_is_finite v = false -> flush on v = v.
Proof.
  destruct on, v as [s|[|]| |s m e]; simpl; intros H; try discriminate; reflexivity.
Qed.

(** An infinity or a NaN added to or subtracted from anything leaves no
    finite value, whatever the runtime does with subnormal numbers. *)
Lemma add_not_finite_l (d : Denormals) (a b : spec_float) :
  f32_is_finite a = false -> f32_is_finite (operation d SFadd a b) = false.
Proof.
  intros Ha. unfold operation. rewrite (flush_not_finite _ a Ha).
  destruct a as [s|sa| |s m e]; try discriminate;
    destruct (flush _ b) as [s|[|]| |s m e]; try destruct sa;
    cbn [SFadd]; destruct d as [i [|]]; reflexivity.
Qed.

Lemma add_not_finite_r (d : Denormals) (a b : spec_float) :
  f32_is_finite b = false -> f32_is_finite (operation d SFadd a b) = false.
Proof.
  intros Hb. unfold operation. rewrite (flush_not_finite _ b Hb).
  destruct b as [s|sb| |s m e]; try discriminate;
    destruct (flush _ a) as [s|[|]| |s m e]; try destruct sb;
    cbn [SFadd]; destruct d as [i [|]]; reflexivity.
Qed.

Lemma sub_not_finite_l (d : Denormals) (a b : spec_float) :
  f32_is_finite a = false -> f32_is_finite (operation d SFsub a b) = false.
Proof.
  intros Ha. unfold operation. rewrite (flush_not_finite _ a Ha).
  destruct a as [s|sa| |s m e]; try discriminate;
    destruct (flush _ b) as [s|[|]| |s m e]; try destruct sa;
    cbn [SFsub]; destruct d as [i [|]]; reflexivity.
Qed.

(** A term that is not finite makes the sum not finite, in whatever
    order the reduction adds. *)
Lemma sums_not_finite (d : Denormals) (t : list spec_float) (r : spec_float) :
  sums (operation d SFadd) f32_zero t r ->
  Exists (fun x => f32_is_finite x = false) t ->
  f32_is_finite r = false.
Proof.
  induction 1 as [|x|l l1 l2 r1 r2 Hp _ IH1 _ IH2]; intros Hex.
  - inversion Hex.
  - inversion Hex as [? ? Hx|? ? Hx]; [exact Hx | inversion Hx].
  - apply Exists_exists in Hex. destruct Hex as (x & Hin & Hx).
    apply (Permutation_in _ Hp) in Hin. apply in_app_or in Hin.
    destruct Hin as [Hin | Hin].
    + apply add_not_finite_l, IH1, Exists_exists. eauto.
    + apply add_not_finite_r, IH2, Exists_exists. eauto.
Qed.

(** Zero and zero add to zero, whatever the runtime does with subnormal
    numbers. *)
Lemma add_zero_zero (d : Denormals) : operation d SFadd f32_zero f32_zero = f32_zero.
Proof.
  destruct d as [[|] [|]]; reflexivity.
Qed.

(** The difference of the largest finite number and its opposite
    overflows, and the log-density is minus infinity less the
    normalisation. *)
Lemma overflowing_log_prob (d : Denormals) (flog : spec_float -> spec_float) :
  Normal_log_prob (arith d flog) f32_max f32_one (SFopp f32_max)
  = operation d SFsub (S754_infinity true)
      (operation d SFadd f32_half_log_two_pi (flog f32_one)).
Proof.
  unfold Normal_log_prob, squared_difference.
  cbn [a_mul a_sub a_div a_add a_log a_neg_half a_half_log_two_pi arith].
  replace (operation d SFdiv (SFopp f32_max) f32_one) with (SFopp f32_max)
    by (destruct d as [[|] [|]]; vm_compute; reflexivity).
  replace (operation d SFdiv f32_max f32_one) with f32_max
    by (destruct d as [[|] [|]]; vm_compute; reflexivity).
  replace (operation d SFsub (SFopp f32_max) f32_max) with (S754_infinity true)
    by (destruct d as [[|] [|]]; vm_compute; reflexivity).
  replace (operation d SFmul (S754_infinity true) (S754_infinity true))
    with (S754_infinity false) by (destruct d as [[|] [|]]; vm_compute; reflexivity).
  replace (operation d SFmul f32_neg_half (S754_infinity false))
    with (S754_infinity true) by (destruct d as [[|] [|]]; vm_compute; reflexivity).
  reflexivity.
Qed.

(** Two finite numbers can add to an infinity. *)
Lemma add_overflows (d : Denormals) :
  f32_is_finite (operation d SFadd f32_max f32_max) = false.
Proof.
  destruct d as [[|] [|]]; vm_compute; reflexivity.
Qed.

End Binary32Facts.

(** ** The likelihood *)

Section LikelihoodClaims.

Context {E : Engine}.

(** C1, amended: with one latent position per timestep and at least
    one timestep, the log-likelihood is the reduction, by the sum of the
    tensor library, of one term per timestep: an observed timestep
    contributes the Normal log-density of its loc around its latent
    position at the observation noise scale, and a missing one
    contributes exactly zero.  The scale may be any scalar, positive or
    not.  The library adds the terms in an order of its own. *)
Theorem C1_log_likelihood_sums_observed
    (values : list dtype) (locs : tensor) (scale : dtype)
    (Hlen : length values = length locs) (Hsome : values <> []) :
  let terms := map (timestep_term scale) (combine values locs) in
  brownian_motion_log_likelihood_fn values locs (Some scale) = Some (reduce_sum terms)
  /\ length terms = length locs
  /\ (forall (t : nat) (v x : dtype),
        nth_error values t = Some v -> nth_error locs t = Some x ->
        nth_error terms t
        = Some (if is_finite x then normal_log_prob v scale x else zero))
  /\ (adds_up_in_some_order -> sums add zero terms (reduce_sum terms)).
Proof.
  cbv zeta. split; [now apply log_likelihood_aligned|].
  split; [rewrite length_map, length_combine; lia|].
  split.
  - intros t v x. apply nth_term_aligned.
  - intros Hsum. apply Hsum.
Qed.

(** C4: without a fixed scale, the first two entries of the values are
    taken off as the two sampled scales and the rest are the latents.
    With one latent per timestep the terms summed are the per-timestep
    contributions at the second entry as the scale.  In every case the
    outcome is that of the fixed-scale call on the rest at the second
    entry, so the first entry, the innovation noise scale, plays no
    part. *)
Theorem C4_unknown_scales_use_the_second_entry
    (innovation observation : dtype) (latents : list dtype) (locs : tensor) :
  (length latents = length locs -> latents <> [] ->
   brownian_motion_log_likelihood_fn (innovation :: observation :: latents) locs None
   = Some (reduce_sum (map (timestep_term observation) (combine latents locs))))
  /\ brownian_motion_log_likelihood_fn (innovation :: observation :: latents) locs None
     = brownian_motion_log_likelihood_fn latents locs (Some observation)
  /\ forall innovation' : dtype,
       brownian_motion_log_likelihood_fn (innovation' :: observation :: latents) locs None
       = brownian_motion_log_likelihood_fn (innovation :: observation :: latents) locs None.
Proof.
  split; [|split; [reflexivity|]].
  - intros Hlen Hsome.
    change (brownian_motion_log_likelihood_fn (innovation :: observation :: latents)
              locs None)
      with (brownian_motion_log_likelihood_fn latents locs (Some observation)).
    now apply log_likelihood_aligned.
  - intros innovation'. reflexivity.
Qed.

(** C9: the mask is finiteness.  With one latent per timestep, the term
    of a timestep is the log-density of its loc when the loc is finite
    and zero when it is not, so a finite loc is kept and every other one
    is dropped.  An entry that is not finite can be exchanged for any
    other such entry without changing the outcome of the call, and its
    term is zero whenever the terms are computed, broadcasts included.
    In binary32, whatever the runtime does with subnormal numbers, a
    positive or negative infinity in the locs gives the outcome the NaN
    gives in its place. *)
Theorem C9_mask_is_finiteness
    (vpre vpost : list dtype) (lpre lpost : tensor) (v x scale : dtype)
    (Hpre : length vpre = length lpre) (Hpost : length vpost = length lpost) :
  (exists terms,
      masked_log_probs (vpre ++ v :: vpost) (lpre ++ x :: lpost) scale = Some terms
      /\ brownian_motion_log_likelihood_fn
           (vpre ++ v :: vpost) (lpre ++ x :: lpost) (Some scale)
         = Some (reduce_sum terms)
      /\ nth_error terms (length lpre)
         = Some (if is_finite x then normal_log_prob v scale x else zero))
  /\ (is_finite x = false ->
      forall (y : dtype) (values : list dtype),
        is_finite y = false ->
        brownian_motion_log_likelihood_fn values (lpre ++ x :: lpost) (Some scale)
        = brownian_motion_log_likelihood_fn values (lpre ++ y :: lpost) (Some scale))
  /\ (is_finite x = false ->
      forall (values : list dtype) (terms : tensor),
        masked_log_probs values (lpre ++ x :: lpost) scale = Some terms ->
        nth_error terms (length lpre) = Some zero)
  /\ (forall (d : Binary32.Denormals) (flog : spec_float -> spec_float)
             (fsum : list spec_float -> spec_float)
             (values pre post : list spec_float) (s noise : spec_float),
        s = S754_infinity false \/ s = S754_infinity true ->
        @brownian_motion_log_likelihood_fn (Binary32.engine d flog fsum)
          values (pre ++ s :: post) (Some noise)
        = @brownian_motion_log_likelihood_fn (Binary32.engine d flog fsum)
            values (pre ++ S754_nan :: post) (Some noise)).
Proof.
  assert (Hexchange : forall (F : Engine) (values : list (@dtype F))
                             (pre post : @tensor F) (a b noise : @dtype F),
            @is_finite F a = false -> @is_finite F b = false ->
            @brownian_motion_log_likelihood_fn F values (pre ++ a :: post) (Some noise)
            = @brownian_motion_log_likelihood_fn F values (pre ++ b :: post) (Some noise)).
  { intros F values pre post a b noise Ha Hb.
    unfold brownian_motion_log_likelihood_fn, convert_to_tensor. cbn [bind]. cbv zeta.
    rewrite (@masked_log_probs_same_observation F values
               (pre ++ a :: post) (pre ++ b :: post)).
    - reflexivity.
    - apply Forall2_app; [apply same_observation_refl|].
      constructor; [|apply same_observation_refl].
      right. unfold missing. now rewrite Ha, Hb. }
  assert (Hlen : length (vpre ++ v :: vpost) = length (lpre ++ x :: lpost))
    by (rewrite !length_app; simpl; lia).
  assert (Hsome : vpre ++ v :: vpost <> [])
    by (destruct vpre; discriminate).
  split; [|split; [|split]].
  - eexists. split; [now apply masked_log_probs_aligned|].
    split; [now apply log_likelihood_aligned|].
    now apply nth_timestep_term.
  - intros Hx y values Hy. now apply Hexchange.
  - intros Hx values terms Hterms. apply masked_log_probs_Some in Hterms.
    destruct Hterms as (Hvalues & lps & Hlps & Hterms).
    eapply tf_where_false; [exact Hterms | |].
    + eapply broadcast2_nonempty; [exact Hlps | |].
      * destruct values; [congruence | discriminate].
      * destruct lpre; discriminate.
    + rewrite nth_error_map, nth_error_app2 by lia.
      rewrite Nat.sub_diag. simpl. now rewrite Hx.
  - intros d flog fsum values pre post s noise Hs.
    apply (Hexchange (Binary32.engine d flog fsum)); [|reflexivity].
    destruct Hs as [-> | ->]; reflexivity.
Qed.

(** The steps of a successful evaluation, with the log-density as the
    distribution library evaluates it. *)
Lemma masked_log_probs_steps (values : list dtype) (locs terms : tensor) (scale : dtype) :
  masked_log_probs values locs scale = Some terms ->
  exists observed lps,
    tf_where (map is_finite locs) locs zero = Some observed
    /\ Forall (fun o => is_finite o = true \/ o = zero) observed
    /\ Normal_log_prob_tensor values (newaxis scale) observed = Some lps
    /\ tf_where (map is_finite locs) lps zero = Some terms.
Proof.
  unfold masked_log_probs.
  destruct (tf_stack values) as [latents|] eqn:Hstack; [|discriminate].
  apply tf_stack_Some in Hstack. destruct Hstack as [-> Hsome].
  cbn [bind]. rewrite tf_where_mask. cbn [bind].
  destruct (Normal_log_prob_tensor _ _ _) as [lps|] eqn:Hlps; [|discriminate].
  cbn [bind]. intros Hterms.
  eexists. exists lps. split; [reflexivity|]. split; [|split; assumption].
  apply Forall_forall. intros o Hin.
  apply in_map_iff in Hin. destruct Hin as (l & <- & _).
  destruct (is_finite l) eqn:Hl; auto.
Qed.

(** C10, amended: a missing observation never reaches the result.  The
    observations the log-density is evaluated at have zero in place of
    every missing entry, and the terms summed have zero at every missing
    timestep.  Whenever the call returns, its result is exactly zero if
    every observation is missing; and with one latent per timestep it is
    finite, however many observations are missing and whatever the
    latents are at the missing timesteps, as long as the log-density at
    each observed timestep is finite and no addition of the sum
    overflows. *)
Theorem C10_finite_without_overflow
    (values : list dtype) (locs : tensor) (scale r : dtype)
    (Hcall : brownian_motion_log_likelihood_fn values locs (Some scale) = Some r)
    (Hsum : adds_up_in_some_order)
    (Hzero : add zero zero = zero)
    (Hfinite_zero : is_finite zero = true) :
  exists terms,
    masked_log_probs values locs scale = Some terms
    /\ r = reduce_sum terms
    /\ (exists observed lps,
          tf_where (map is_finite locs) locs zero = Some observed
          /\ Forall (fun o => is_finite o = true) observed
          /\ Normal_log_prob_tensor values (newaxis scale) observed = Some lps
          /\ tf_where (map is_finite locs) lps zero = Some terms)
    /\ (forall (t : nat) (x : dtype),
          nth_error locs t = Some x -> is_finite x = false ->
          nth_error terms t = Some zero)
    /\ (Forall (fun x => missing x = true) locs -> r = zero)
    /\ (length values = length locs ->
        (forall v x, In (v, x) (combine values locs) -> is_finite x = true ->
                     is_finite (normal_log_prob v scale x) = true) ->
        no_sum_overflows terms ->
        is_finite r = true).
Proof.
  apply log_likelihood_Some in Hcall. destruct Hcall as (terms & Hterms & ->).
  exists terms. split; [exact Hterms|]. split; [reflexivity|].
  split; [|split; [|split]].
  - destruct (masked_log_probs_steps _ _ _ Hterms)
      as (observed & lps & Hobserved & Hfinite & Hlps & Hmasked).
    exists observed, lps. split; [exact Hobserved|]. split; [|now split].
    eapply Forall_impl; [|exact Hfinite].
    intros o [Ho | ->]; [exact Ho | exact Hfinite_zero].
  - intros t x Ht Hx.
    pose proof Hterms as Hsteps. apply masked_log_probs_Some in Hsteps.
    destruct Hsteps as (Hvalues & lps & Hlps & Hmasked).
    eapply tf_where_false; [exact Hmasked | |].
    + eapply broadcast2_nonempty; [exact Hlps | |].
      * destruct values; [congruence | discriminate].
      * destruct locs; [destruct t; discriminate | discriminate].
    + now rewrite nth_error_map, Ht, <- Hx.
  - intros Hall. apply (sums_all_zero Hzero (Hsum terms)).
    eapply terms_all_missing; eassumption.
  - intros Hlen Hdensity Hno.
    assert (Hvalues : values <> [])
      by (apply masked_log_probs_Some in Hterms; tauto).
    rewrite (@masked_log_probs_aligned _ values locs scale Hlen Hvalues) in Hterms.
    injection Hterms as <-.
    apply (@sums_finite _ _ (map (timestep_term scale) (combine values locs)) [] _
             Hfinite_zero Hno);
      [now rewrite app_nil_r | apply Hsum |].
    apply Forall_forall. intros t Ht.
    apply in_map_iff in Ht. destruct Ht as ([v x] & <- & Hin).
    unfold timestep_term, missing. simpl.
    destruct (is_finite x) eqn:Hx; simpl; [now apply Hdensity | exact Hfinite_zero].
Qed.

(** Latents and locs of different lengths, neither of length one, do
    not broadcast: the call raises. *)
Theorem shape_mismatch_raises
    (values : list dtype) (locs : tensor) (scale : dtype)
    (Hdiff : length values <> length locs)
    (Hvalues : length values <> 1) (Hlocs : length locs <> 1) :
  brownian_motion_log_likelihood_fn values locs (Some scale) = None.
Proof.
  destruct (brownian_motion_log_likelihood_fn values locs (Some scale)) as [r|] eqn:Hcall;
    [|reflexivity].
  exfalso. apply log_likelihood_Some in Hcall. destruct Hcall as (terms & Hterms & _).
  apply masked_log_probs_Some in Hterms. destruct Hterms as (_ & lps & Hlps & _).
  destruct (broadcast2_Some _ _ _ Hlps) as [(p & Hp & _) | [(o & Ho & _) | (Hlen & _)]].
  - apply (f_equal (@length _)) in Hp. rewrite length_map in Hp. simpl in Hp. lia.
  - apply (f_equal (@length _)) in Ho. rewrite length_map in Ho. simpl in Ho. lia.
  - rewrite !length_map in Hlen. lia.
Qed.

(** Without a fixed scale, fewer than two values cannot be unpacked into
    the two scales: the call raises. *)
Theorem unknown_scales_need_two_values (locs : tensor) :
  brownian_motion_log_likelihood_fn [] locs None = None
  /\ forall v, brownian_motion_log_likelihood_fn [v] locs None = None.
Proof.
  split; [reflexivity|]. intros v. reflexivity.
Qed.

End LikelihoodClaims.

(** ** The prior generators *)

Section PriorFacts.

Context {E : Engine}.

Variable sample : nat -> Yielded -> dtype.

Lemma length_range (start stop : Z) :
  length (range start stop) = Z.to_nat (stop - start).
Proof.
  unfold range. now rewrite length_map, length_seq.
Qed.

Lemma nth_error_range (start stop : Z) (k : nat) :
  k < Z.to_nat (stop - start) ->
  nth_error (range start stop) k = Some (start + Z.of_nat k)%Z.
Proof.
  intros Hk. unfold range.
  rewrite nth_error_map, nth_error_seq.
  apply Nat.ltb_lt in Hk. now rewrite Hk.
Qed.

(** The loop yields once per timestep of its range. *)
Lemma length_run_for_timesteps (scale : dtype) (ts : list Z) (i : nat) (new : dtype) :
  length (run sample i (for_timesteps scale ts new)) = length ts.
Proof.
  revert i new. induction ts as [|t ts IH]; intros i new; simpl; [reflexivity|].
  now rewrite IH.
Qed.

(** The [k]-th distribution of the loop is centred at the [k]-th entry
    of the value the loop was entered with followed by its samples. *)
Lemma nth_run_for_timesteps (scale : dtype) (ts : list Z) (i : nat) (new : dtype)
    (k : nat) (t : Z) (previous : dtype) :
  nth_error ts k = Some t ->
  nth_error (new :: map snd (run sample i (for_timesteps scale ts new))) k
  = Some previous ->
  nth_error (map fst (run sample i (for_timesteps scale ts new))) k
  = Some (Bare (Normal previous scale (x_name t))).
Proof.
  revert i new k. induction ts as [|t0 ts IH]; intros i new k Ht Hprev.
  - destruct k; discriminate.
  - destruct k as [|k]; simpl in *.
    + now injection Ht as ->; injection Hprev as ->.
    + now apply IH.
Qed.

Lemma for_timesteps_normal (scale : dtype) (ts : list Z) (i : nat) (new : dtype) :
  Forall (fun y => exists loc name, distribution_of y = Normal loc scale name)
         (map fst (run sample i (for_timesteps scale ts new))).
Proof.
  revert i new. induction ts as [|t ts IH]; intros i new; simpl; constructor.
  - simpl. eauto.
  - apply IH.
Qed.

Lemma length_run_prior (num_timesteps : Z) (scale : dtype) (i : nat) :
  length (run sample i (brownian_motion_prior_fn num_timesteps scale))
  = S (Z.to_nat (num_timesteps - 1)).
Proof.
  unfold brownian_motion_prior_fn. simpl.
  now rewrite length_run_for_timesteps, length_range.
Qed.

Lemma prior_normal (num_timesteps : Z) (scale : dtype) (i : nat) :
  Forall (fun y => exists loc name, distribution_of y = Normal loc scale name)
         (map fst (run sample i (brownian_motion_prior_fn num_timesteps scale))).
Proof.
  unfold brownian_motion_prior_fn. simpl. constructor.
  - simpl. eauto.
  - apply for_timesteps_normal.
Qed.

(** Delegating in tail position adds nothing to a run. *)
Lemma run_yield_from_Stop (g : Generator) (i : nat) :
  run sample i (yield_from g Stop) = run sample i g.
Proof.
  revert i. induction g as [|y k IH]; intros i; simpl; [reflexivity|].
  now rewrite IH.
Qed.

Lemma run_unknown_scales_prior (num_timesteps : Z) :
  let innovation := Root (LogNormal zero two "innovation_noise_scale"%string) in
  let observation := Root (LogNormal zero two "observation_noise_scale"%string) in
  run sample 0 (brownian_motion_unknown_scales_prior_fn num_timesteps)
  = (innovation, sample 0 innovation)
    :: (observation, sample 1 observation)
    :: run sample 2 (brownian_motion_prior_fn num_timesteps (sample 0 innovation)).
Proof.
  unfold brownian_motion_unknown_scales_prior_fn.
  cbn [run]. now rewrite run_yield_from_Stop.
Qed.

(** C2: for at least one timestep, driven by any sampler, the prior
    yields exactly [num_timesteps] distributions: the first is the Normal
    centred at zero, the one at each later timestep [t] is the Normal
    centred at the value sampled at timestep [t - 1], and every one of
    them is a Normal at the one innovation noise scale. *)
Theorem C2_prior_is_a_random_walk
    (num_timesteps : Z) (innovation_noise_scale : dtype)
    (Hn : (1 <= num_timesteps)%Z) :
  let trace := run sample 0 (brownian_motion_prior_fn num_timesteps innovation_noise_scale) in
  length trace = Z.to_nat num_timesteps
  /\ nth_error (map fst trace) 0
     = Some (Root (Normal zero innovation_noise_scale "x_0"%string))
  /\ (forall (t : nat) (previous : dtype),
        1 <= t -> t < Z.to_nat num_timesteps ->
        nth_error (map snd trace) (t - 1) = Some previous ->
        nth_error (map fst trace) t
        = Some (Bare (Normal previous innovation_noise_scale (x_name (Z.of_nat t)))))
  /\ Forall (fun y => exists loc name,
                 distribution_of y = Normal loc innovation_noise_scale name)
            (map fst trace).
Proof.
  cbv zeta. split; [|split; [|split]].
  - rewrite length_run_prior. lia.
  - reflexivity.
  - intros t previous Ht Hlt Hprev.
    destruct t as [|k]; [lia|].
    replace (S k - 1) with k in Hprev by lia.
    unfold brownian_motion_prior_fn in *. simpl in Hprev |- *.
    replace (Z.pos (Pos.of_succ_nat k)) with (1 + Z.of_nat k)%Z by lia.
    apply nth_run_for_timesteps; [|exact Hprev].
    apply nth_error_range. lia.
  - apply prior_normal.
Qed.

(** C3: for at least one timestep, the unknown-scales prior first yields
    the two log-normal scale draws, each a root that depends on no other
    variable, and then runs the base prior at the sampled innovation
    noise scale: its run is those two draws followed by the
    [num_timesteps] latent positions of the base process. *)
Theorem C3_unknown_scales_prior_prepends_two_draws
    (num_timesteps : Z) (Hn : (1 <= num_timesteps)%Z) :
  let innovation := Root (LogNormal zero two "innovation_noise_scale"%string) in
  let observation := Root (LogNormal zero two "observation_noise_scale"%string) in
  let base :=
    run sample 2 (brownian_motion_prior_fn num_timesteps (sample 0 innovation)) in
  run sample 0 (brownian_motion_unknown_scales_prior_fn num_timesteps)
  = (innovation, sample 0 innovation) :: (observation, sample 1 observation) :: base
  /\ length base = Z.to_nat num_timesteps
  /\ Forall (fun y => is_latent y = true) (map fst base).
Proof.
  cbv zeta. split; [|split].
  - apply run_unknown_scales_prior.
  - rewrite length_run_prior. lia.
  - eapply Forall_impl; [|apply prior_normal].
    intros y (loc & name & Hy). unfold is_latent. now rewrite Hy.
Qed.

(** Whatever [num_timesteps] is, zero and the negative numbers
    included, the prior yields [x_0], and then one latent for each
    timestep from 1 on. *)
Theorem prior_always_yields_x0 (num_timesteps : Z) (innovation_noise_scale : dtype) :
  exists v rest,
    run sample 0 (brownian_motion_prior_fn num_timesteps innovation_noise_scale)
    = (Root (Normal zero innovation_noise_scale "x_0"%string), v) :: rest
    /\ length rest = Z.to_nat (num_timesteps - 1).
Proof.
  unfold brownian_motion_prior_fn. cbn [run]. do 2 eexists.
  split; [reflexivity|].
  now rewrite length_run_for_timesteps, length_range.
Qed.

End PriorFacts.

(** ** The model classes *)



Lemma map_fst_combine_same_length {A B} (xs : list A) (ys : list B) :
  length xs = length ys -> map fst (combine xs ys) = xs.
Proof.
  revert ys. induction xs as [|x xs IH]; intros [|y ys] Hlen;
    simpl in *; try discriminate; [reflexivity|].
  injection Hlen as Hlen. now rewrite IH.
Qed.


Section ModelFacts.

Context {E : Engine}.

Lemma length_names_prior (num_timesteps : Z) (scale : dtype) :
  length (flat_resolve_names (brownian_motion_prior_fn num_timesteps scale))
  = S (Z.to_nat (num_timesteps - 1)).
Proof.
  unfold flat_resolve_names. now rewrite length_map, length_run_prior.
Qed.

Lemma names_unknown_scales_prior (num_timesteps : Z) :
  exists names,
    flat_resolve_names (brownian_motion_unknown_scales_prior_fn num_timesteps)
    = "innovation_noise_scale"%string :: "observation_noise_scale"%string :: names
    /\ length names = S (Z.to_nat (num_timesteps - 1)).
Proof.
  unfold flat_resolve_names. rewrite run_unknown_scales_prior. cbn [map fst].
  eexists. split; [reflexivity|].
  now rewrite length_map, length_run_prior.
Qed.

(** The structure built from no more arguments than it has fields. *)
Lemma structtuple_short {A} (fields : list string) (args : list A) :
  length args <= length fields ->
  structtuple fields args
  = Some (combine fields
            (map Some args ++ repeat None (length fields - length args))).
Proof.
  intros Hlen. unfold structtuple.
  apply Nat.ltb_ge in Hlen. now rewrite Hlen.
Qed.

(** What [BrownianMotion.__init__] builds: it never raises. *)
Lemma BrownianMotion_init_eq (locs : tensor) (si so : dtype) (nm pn : string) :
  let prior := brownian_motion_prior_fn (Z.of_nat (length locs)) si in
  BrownianMotion_init locs si so nm pn
  = Some {| _prior_dist := prior;
            _log_likelihood_fn :=
              {| bound_locs := locs; bound_observation_noise_scale := Some so |};
            default_event_space_bijector :=
              combine (flat_resolve_names prior)
                (repeat (Some Identity) (length locs)
                 ++ repeat None (length (flat_resolve_names prior) - length locs));
            name := nm;
            pretty_name := pn;
            sample_transformations :=
              [("identity"%string,
                {| fn := BrownianMotion_ext_identity;
                   transformation_pretty_name := "Identity"%string |})] |}.
Proof.
  cbv zeta. unfold BrownianMotion_init.
  rewrite structtuple_short
    by (rewrite repeat_length, length_names_prior; lia).
  cbn [bind]. now rewrite map_repeat, repeat_length, Nat2Z.id.
Qed.

(** What [BrownianMotionUnknownScales.__init__] builds: it never
    raises. *)
Lemma BrownianMotionUnknownScales_init_eq (locs : tensor) (nm pn : string) :
  let prior := brownian_motion_unknown_scales_prior_fn (Z.of_nat (length locs)) in
  BrownianMotionUnknownScales_init locs nm pn
  = Some {| _prior_dist := prior;
            _log_likelihood_fn :=
              {| bound_locs := locs; bound_observation_noise_scale := None |};
            default_event_space_bijector :=
              combine (flat_resolve_names prior)
                (Some Softplus :: Some Softplus
                 :: repeat (Some Identity) (length locs)
                 ++ repeat None (length (flat_resolve_names prior) - (2 + length locs)));
            name := nm;
            pretty_name := pn;
            sample_transformations :=
              [("identity"%string,
                {| fn := BrownianMotionUnknownScales_ext_identity;
                   transformation_pretty_name := "Identity"%string |})] |}.
Proof.
  cbv zeta. unfold BrownianMotionUnknownScales_init.
  destruct (names_unknown_scales_prior (Z.of_nat (length locs)))
    as (names & Hnames & Hlen).
  rewrite structtuple_short
    by (rewrite Hnames, length_app, repeat_length; simpl; lia).
  cbn [bind]. rewrite map_app, map_repeat, length_app, repeat_length, Nat2Z.id.
  reflexivity.
Qed.



Lemma fixed_scales_prior_shape (locs : tensor) (si so : dtype) (nm pn : string) :
  locs <> [] ->
  exists self,
    BrownianMotion_init locs si so nm pn = Some self
    /\ one_latent_per_loc self locs si.
Proof.
  intros Hlocs. eexists. split; [apply BrownianMotion_init_eq|].
  intros sample. unfold prior_variables. cbn [_prior_dist].
  split; [|split].
  - rewrite length_map, length_run_prior.
    destruct locs; [congruence | simpl length; lia].
  - eapply Forall_impl; [|apply prior_normal].
    intros y (loc & name & Hy). unfold is_latent. now rewrite Hy.
  - apply prior_normal.
Qed.

Lemma unknown_scales_prior_shape (locs : tensor) (nm pn : string) :
  locs <> [] ->
  exists self,
    BrownianMotionUnknownScales_init locs nm pn = Some self
    /\ two_scales_then_one_latent_per_loc self locs.
Proof.
  intros Hlocs. eexists. split; [apply BrownianMotionUnknownScales_init_eq|].
  intros sample. unfold prior_variables. cbn [_prior_dist].
  rewrite run_unknown_scales_prior.
  cbn [map fst]. do 3 eexists. split; [reflexivity|].
  split; [reflexivity|]. split; [reflexivity|]. split; [|split].
  - rewrite length_map, length_run_prior.
    destruct locs; [congruence | simpl length; lia].
  - eapply Forall_impl; [|apply prior_normal].
    intros y (loc & name & Hy). unfold is_latent. now rewrite Hy.
  - apply prior_normal.
Qed.

(** C5, amended: every model constructed on a locs array with at least
    one entry has one latent timestep variable per entry of the array,
    each a Normal at the innovation noise scale; the unknown-scales
    models have the two scale variables and then exactly that many
    latent positions.  This holds for the two classes and for the two
    missing-middle classes built on a dataset, and construction does not
    fail. *)
Theorem C5_one_latent_timestep_per_loc
    (locs : tensor) (si so : dtype) (nm pn : string) (dataset : Dataset)
    (Hlocs : locs <> []) (Hdataset : dataset_locs dataset <> []) :
  (exists self,
      BrownianMotion_init locs si so nm pn = Some self
      /\ one_latent_per_loc self locs si)
  /\ (exists self,
        BrownianMotionUnknownScales_init locs nm pn = Some self
        /\ two_scales_then_one_latent_per_loc self locs)
  /\ (exists self,
        BrownianMotionMissingMiddleObservations_init dataset = Some self
        /\ one_latent_per_loc self (dataset_locs dataset)
             (dataset_innovation_noise_scale dataset))
  /\ (exists self,
        BrownianMotionUnknownScalesMissingMiddleObservations_init dataset = Some self
        /\ two_scales_then_one_latent_per_loc self (dataset_locs dataset)).
Proof.
  split; [|split; [|split]].
  - now apply fixed_scales_prior_shape.
  - now apply unknown_scales_prior_shape.
  - now apply fixed_scales_prior_shape.
  - now apply unknown_scales_prior_shape.
Qed.

(** Construction never fails, not even on the empty locs array: there
    the prior still has the variable [x_0], and the event-space
    bijector, given no component for it, holds [None] in its place. *)
Theorem construction_on_empty_locs (locs : tensor) (si so : dtype) (nm pn : string) :
  (exists self, BrownianMotion_init locs si so nm pn = Some self)
  /\ (exists self, BrownianMotionUnknownScales_init locs nm pn = Some self)
  /\ (exists self,
        BrownianMotion_init [] si so nm pn = Some self
        /\ (forall sample,
              prior_variables self sample = [Root (Normal zero si "x_0"%string)])
        /\ default_event_space_bijector self = [("x_0"%string, None)])
  /\ (exists self,
        BrownianMotionUnknownScales_init [] nm pn = Some self
        /\ (forall sample,
              exists scale1 scale2 x0,
                prior_variables self sample = [scale1; scale2; x0]
                /\ is_latent scale1 = false /\ is_latent scale2 = false
                /\ is_latent x0 = true)
        /\ default_event_space_bijector self
           = [("innovation_noise_scale"%string, Some Softplus);
              ("observation_noise_scale"%string, Some Softplus);
              ("x_0"%string, None)]).
Proof.
  split; [eexists; apply BrownianMotion_init_eq|].
  split; [eexists; apply BrownianMotionUnknownScales_init_eq|].
  split.
  - eexists. split; [reflexivity|]. split; [|reflexivity].
    intros sample. reflexivity.
  - eexists. split; [reflexivity|]. split; [|reflexivity].
    intros sample. do 3 eexists. split; [reflexivity|].
    split; [reflexivity|]. split; reflexivity.
Qed.

End ModelFacts.

Section ModelClaims.

Context {E : Engine}.







End ModelClaims.

(** ** The properties at concrete inputs *)

Module Witnesses.

Import Exact Inputs.

Lemma C1_witness :
  length [Fin 1; Fin 2] = length [Fin 3; NaN]
  /\ [Fin 1; Fin 2] <> []
  /\ @brownian_motion_log_likelihood_fn engine [Fin 1; Fin 2] [Fin 3; NaN] (Some (Fin 1))
     = Some (@reduce_sum engine
               [Normal_log_prob arith (Fin 1) (Fin 1) (Fin 3); Fin 0]).
Proof.
  split; [reflexivity|]. split; [discriminate|].
  refine (proj1 (@C1_log_likelihood_sums_observed engine
                   [Fin 1; Fin 2] [Fin 3; NaN] (Fin 1) eq_refl _)).
  discriminate.
Defined.

Lemma C2_witness :
  (1 <= 3)%Z
  /\ length (@run engine sampler 0 (@brownian_motion_prior_fn engine 3 (Fin 2))) = 3.
Proof.
  split; [lia|].
  apply (@C2_prior_is_a_random_walk engine sampler 3 (Fin 2)). lia.
Defined.

Lemma C3_witness :
  (1 <= 3)%Z
  /\ length (@run engine sampler 0 (@brownian_motion_unknown_scales_prior_fn engine 3))
     = 5.
Proof.
  split; [lia|].
  destruct (@C3_unknown_scales_prior_prepends_two_draws engine sampler 3)
    as (Hrun & Hlen & _); [lia|].
  rewrite Hrun. exact (f_equal (fun n => S (S n)) Hlen).
Defined.

Lemma C4_witness :
  length [Fin 1; Fin 2] = length [Fin 3; NaN]
  /\ [Fin 1; Fin 2] <> []
  /\ @brownian_motion_log_likelihood_fn engine
       [Fin 7; Fin 5; Fin 1; Fin 2] [Fin 3; NaN] None
     = Some (@reduce_sum engine
               [Normal_log_prob arith (Fin 1) (Fin 5) (Fin 3); Fin 0]).
Proof.
  split; [reflexivity|]. split; [discriminate|].
  refine (proj1 (@C4_unknown_scales_use_the_second_entry engine
                   (Fin 7) (Fin 5) [Fin 1; Fin 2] [Fin 3; NaN]) eq_refl _).
  discriminate.
Defined.

Lemma C5_witness :
  three_locs <> []
  /\ dataset_locs three_locs_dataset <> []
  /\ (exists self,
        @BrownianMotion_init engine three_locs (Fin 1) (Fin 1) "m" "M" = Some self
        /\ one_latent_per_loc self three_locs (Fin 1))
  /\ (exists self,
        @BrownianMotionUnknownScales_init engine three_locs "m" "M" = Some self
        /\ two_scales_then_one_latent_per_loc self three_locs).
Proof.
  assert (H : three_locs <> []) by discriminate.
  split; [exact H|]. split; [exact H|].
  pose proof (@C5_one_latent_timestep_per_loc engine three_locs (Fin 1) (Fin 1) "m" "M"
                three_locs_dataset H H) as (H1 & H2 & _).
  split; [exact H1 | exact H2].
Defined.



Lemma shape_mismatch_witness :
  length [Fin 1; Fin 2; Fin 3] <> length [Fin 1; Fin 2]
  /\ length [Fin 1; Fin 2; Fin 3] <> 1 /\ length [Fin 1; Fin 2] <> 1
  /\ @brownian_motion_log_likelihood_fn engine
       [Fin 1; Fin 2; Fin 3] [Fin 1; Fin 2] (Some (Fin 1)) = None.
Proof.
  split; [simpl; lia|]. split; [simpl; lia|]. split; [simpl; lia|].
  apply (@shape_mismatch_raises engine); simpl; lia.
Defined.

Lemma C9_witness :
  length [Fin 1] = length [Fin 4]
  /\ length [Fin 3] = length [Fin 5]
  /\ (exists terms,
        @masked_log_probs engine ([Fin 1] ++ Fin 2 :: [Fin 3])
          ([Fin 4] ++ Fin 6 :: [Fin 5]) (Fin 1) = Some terms
        /\ nth_error terms 1 = Some (Normal_log_prob arith (Fin 2) (Fin 1) (Fin 6)))
  /\ (exists terms,
        @masked_log_probs engine ([Fin 1] ++ Fin 2 :: [Fin 3])
          ([Fin 4] ++ PInf :: [Fin 5]) (Fin 1) = Some terms
        /\ nth_error terms 1 = Some (Fin 0))
  /\ @brownian_motion_log_likelihood_fn engine
       [Fin 1; Fin 2; Fin 3] ([Fin 4] ++ PInf :: [Fin 5]) (Some (Fin 1))
     = @brownian_motion_log_likelihood_fn engine
         [Fin 1; Fin 2; Fin 3] ([Fin 4] ++ NaN :: [Fin 5]) (Some (Fin 1)).
Proof.
  split; [reflexivity|]. split; [reflexivity|].
  destruct (@C9_mask_is_finiteness engine
              [Fin 1] [Fin 3] [Fin 4] [Fin 5] (Fin 2) (Fin 6) (Fin 1)
              eq_refl eq_refl) as ((kept & Hkept & _ & Hterm) & _).
  destruct (@C9_mask_is_finiteness engine
              [Fin 1] [Fin 3] [Fin 4] [Fin 5] (Fin 2) PInf (Fin 1)
              eq_refl eq_refl)
    as ((dropped & Hdropped & _ & Hzero) & Hexchange & _).
  split; [exists kept; split; [exact Hkept | exact Hterm]|].
  split; [exists dropped; split; [exact Hdropped | exact Hzero]|].
  apply Hexchange; reflexivity.
Defined.

Lemma C10_witness :
  @adds_up_in_some_order engine
  /\ xadd (Fin 0) (Fin 0) = Fin 0
  /\ x_is_finite (Fin 0) = true
  /\ exists r,
       @brownian_motion_log_likelihood_fn engine [PInf; Fin 2] [NaN; Fin 0] (Some (Fin 1))
       = Some r
       /\ x_is_finite r = true.
Proof.
  split; [exact ExactFacts.adds_up|].
  split; [apply ExactFacts.xadd_zero_r|].
  split; [reflexivity|].
  assert (Hcall :
    @brownian_motion_log_likelihood_fn engine [PInf; Fin 2] [NaN; Fin 0] (Some (Fin 1))
    = Some (@reduce_sum engine
              (map (@timestep_term engine (Fin 1))
                   (combine [PInf; Fin 2] [NaN; Fin 0])))).
  { apply (@log_likelihood_aligned engine); [reflexivity | discriminate]. }
  eexists. split; [exact Hcall|].
  destruct (@C10_finite_without_overflow engine _ _ _ _ Hcall
              ExactFacts.adds_up (ExactFacts.xadd_zero_r (Fin 0)) eq_refl)
    as (terms & _ & _ & _ & _ & _ & Hfinite).
  apply Hfinite.
  - reflexivity.
  - intros v x [[= <- <-] | [[= <- <-] | []]] Hx; [discriminate|].
    apply ExactFacts.log_prob_finite;
      [reflexivity | reflexivity | exact ExactFacts.x_is_positive_one | reflexivity].
  - apply ExactFacts.never_overflows.
Defined.

End Witnesses.

(** ** Where the properties stop *)

Module Counterexamples.

Import Binary32.

(** C1 as stated fails on the array with no entry: with no timestep
    there is no latent to stack, the element shape of the stack cannot
    be read, and the call raises instead of returning the empty sum. *)
Lemma C1_no_timestep :
  length (@nil Exact.xreal) = length (@nil Exact.xreal)
  /\ Exact.x_is_positive (Exact.Fin 1) = true
  /\ @brownian_motion_log_likelihood_fn Exact.engine [] [] (Some (Exact.Fin 1)) = None.
Proof.
  split; [reflexivity|]. split; [exact ExactFacts.x_is_positive_one | reflexivity].
Qed.

(** C5 as stated fails on the array with no entry: both classes
    construct a model on it, and its prior has the latent position
    [x_0], one latent timestep variable for no loc. *)
Lemma C5_no_timestep :
  (exists self,
      @BrownianMotion_init Exact.engine [] (Exact.Fin 1) (Exact.Fin 1) "m" "M"
      = Some self
      /\ @prior_variables Exact.engine self Inputs.sampler
         = [@Root Exact.engine
              (@Normal Exact.engine (Exact.Fin 0) (Exact.Fin 1) "x_0")]
      /\ length (filter (@is_latent Exact.engine)
                   (@prior_variables Exact.engine self Inputs.sampler)) = 1)
  /\ (exists self,
        @BrownianMotionUnknownScales_init Exact.engine [] "m" "M" = Some self
        /\ length (filter (@is_latent Exact.engine)
                     (@prior_variables Exact.engine self Inputs.sampler)) = 1)
  /\ length (@nil Exact.xreal) = 0.
Proof.
  split; [|split; [|reflexivity]].
  - eexists. split; [reflexivity|]. split; reflexivity.
  - eexists. split; reflexivity.
Qed.


(** C10 as stated fails in binary32.  The latent position is the largest
    finite number, the observation is its opposite and the scale is one:
    all three are finite numbers of the format and the scale is positive.
    Their difference overflows, the log-density is minus infinity less
    the normalisation, and whatever the logarithm of the tensor library
    returns at one, in whatever order its reduction adds and whatever it
    does with subnormal numbers, the log-likelihood is not finite. *)
Lemma C10_binary32_overflow :
  valid_binary prec emax f32_max = true
  /\ valid_binary prec emax (SFopp f32_max) = true
  /\ valid_binary prec emax f32_one = true
  /\ Forall (fun v => f32_is_finite v = true) [f32_max]
  /\ f32_is_finite (SFopp f32_max) = true
  /\ f32_is_finite f32_one = true
  /\ f32_is_positive f32_one = true
  /\ length [f32_max] = length [SFopp f32_max]
  /\ (forall (d : Denormals) (flog : spec_float -> spec_float),
        @adds_up_in_some_order
          (engine d flog (fun t => fold_left (operation d SFadd) t f32_zero)))
  /\ forall (d : Denormals) (flog : spec_float -> spec_float)
            (fsum : list spec_float -> spec_float),
       @adds_up_in_some_order (engine d flog fsum) ->
       exists r,
         @brownian_motion_log_likelihood_fn (engine d flog fsum)
           [f32_max] [SFopp f32_max] (Some f32_one) = Some r
         /\ f32_is_finite r = false.
Proof.
  do 3 (split; [vm_compute; reflexivity|]).
  split; [repeat constructor|].
  do 4 (split; [reflexivity|]).
  split.
  - intros d flog t.
    apply (@sums_fold_left (engine d flog
                              (fun t => fold_left (operation d SFadd) t f32_zero))).
  - intros d flog fsum Hsum.
    eexists. split.
    + apply (@log_likelihood_aligned (engine d flog fsum)
               [f32_max] [SFopp f32_max] f32_one eq_refl).
      discriminate.
    + eapply Binary32Facts.sums_not_finite; [apply Hsum|].
      constructor.
      change (f32_is_finite
                (Normal_log_prob (arith d flog) f32_max f32_one (SFopp f32_max))
              = false).
      rewrite Binary32Facts.overflowing_log_prob.
      now apply Binary32Facts.sub_not_finite_l.
Qed.

End Counterexamples.

(** ** Further properties of the likelihood *)

Section FurtherLikelihood.

Context {E : Engine}.

(** A broadcast of broadcastable lengths succeeds, with the length of
    the longer argument. *)
Lemma broadcast2_broadcastable {A B C} (f : A -> B -> C) xs ys :
  broadcastable (length xs) (length ys) = true ->
  exists zs,
    broadcast2 f xs ys = Some zs
    /\ length zs = if Nat.eqb (length xs) 1 then length ys else length xs.
Proof.
  unfold broadcastable, broadcast2. intros H.
  destruct xs as [|x [|x' xs]]; destruct ys as [|y [|y' ys]];
    simpl in H |- *; try discriminate;
    try (eexists; split; [reflexivity|]; simpl; now rewrite ?length_map).
  rewrite !orb_false_r in H. rewrite H.
  eexists. split; [reflexivity|].
  apply Nat.eqb_eq in H.
  simpl. rewrite length_map, length_combine. lia.
Qed.

Lemma broadcast2_Some_broadcastable {A B C} (f : A -> B -> C) xs ys zs :
  broadcast2 f xs ys = Some zs -> broadcastable (length xs) (length ys) = true.
Proof.
  intros H. unfold broadcastable.
  destruct (broadcast2_Some f xs ys H)
    as [(x & -> & _) | [(y & -> & _) | (Hlen & _)]].
  - simpl. now rewrite orb_true_r.
  - simpl. now rewrite orb_true_r.
  - apply Nat.eqb_eq in Hlen. now rewrite Hlen.
Qed.

Lemma log_likelihood_fixed_returns_iff (values : list dtype) (locs : tensor)
    (scale : dtype) :
  (exists r, brownian_motion_log_likelihood_fn values locs (Some scale) = Some r)
  <-> values <> [] /\ broadcastable (length values) (length locs) = true.
Proof.
  split.
  - intros [r Hr]. apply log_likelihood_Some in Hr.
    destruct Hr as (terms & Hterms & _).
    apply masked_log_probs_Some in Hterms.
    destruct Hterms as (Hsome & lps & Hlps & _).
    split; [exact Hsome|].
    apply broadcast2_Some_broadcastable in Hlps. now rewrite !length_map in Hlps.
  - intros [Hsome Hb].
    unfold brownian_motion_log_likelihood_fn, convert_to_tensor. cbn [bind]. cbv zeta.
    unfold masked_log_probs, Normal_log_prob_tensor, newaxis.
    rewrite (tf_stack_nonempty Hsome). cbn [bind].
    rewrite tf_where_mask. cbn [bind].
    rewrite broadcast2_scalar_r. cbn [bind].
    destruct (broadcast2_broadcastable
                (fun (p : dtype * dtype) v => normal_log_prob (fst p) (snd p) v)
                (map (fun m => (m, scale)) values)
                (map (fun x => if is_finite x then x else zero) locs))
      as (lps & -> & Hlen); [now rewrite !length_map|].
    rewrite !length_map in Hlen. cbn [bind].
    destruct (broadcast2_broadcastable
                (fun (c : bool) (v : dtype) => if c then v else zero)
                (map is_finite locs) lps) as (terms & Hterms & _).
    + rewrite length_map, Hlen. unfold broadcastable in Hb |- *.
      destruct (Nat.eqb (length values) 1) eqn:H1.
      * now rewrite Nat.eqb_refl.
      * rewrite orb_false_r in Hb. apply orb_true_iff in Hb.
        destruct Hb as [Hb | Hb].
        -- apply Nat.eqb_eq in Hb. now rewrite Hb, Nat.eqb_refl.
        -- rewrite Hb. now rewrite orb_true_r.
    + unfold tf_where. rewrite Hterms. cbn [bind]. eauto.
Qed.

(** The call returns exactly when there is a latent to stack and the
    latents broadcast against the locs; without a fixed scale the first
    two values are the scales and the rest are the latents. *)
Theorem log_likelihood_returns_iff (values : list dtype) (locs : tensor) (scale : dtype) :
  ((exists r, brownian_motion_log_likelihood_fn values locs (Some scale) = Some r)
   <-> values <> [] /\ broadcastable (length values) (length locs) = true)
  /\ ((exists r, brownian_motion_log_likelihood_fn values locs None = Some r)
      <-> 3 <= length values
          /\ broadcastable (length values - 2) (length locs) = true).
Proof.
  split; [apply log_likelihood_fixed_returns_iff|].
  destruct values as [|a [|s rest]].
  - split; [intros [r Hr]; discriminate | simpl; lia].
  - split; [intros [r Hr]; discriminate | simpl; lia].
  - change (brownian_motion_log_likelihood_fn (a :: s :: rest) locs None)
      with (brownian_motion_log_likelihood_fn rest locs (Some s)).
    rewrite log_likelihood_fixed_returns_iff.
    cbn [length].
    replace (S (S (length rest)) - 2) with (length rest) by lia.
    split; intros [H1 H2]; (split; [|exact H2]).
    + destruct rest; [congruence | simpl; lia].
    + intros ->. simpl in H1. lia.
Qed.

(** A lone latent is compared with every loc, and every latent with a
    lone loc: lengths that differ this way raise nothing. *)
Theorem lone_latent_or_loc_broadcasts
    (m x scale : dtype) (values : list dtype) (locs : tensor) :
  brownian_motion_log_likelihood_fn [m] locs (Some scale)
  = Some (reduce_sum (map (fun x => timestep_term scale (m, x)) locs))
  /\ (values <> [] ->
      brownian_motion_log_likelihood_fn values [x] (Some scale)
      = Some (reduce_sum (map (fun m => timestep_term scale (m, x)) values))).
Proof.
  split.
  - unfold brownian_motion_log_likelihood_fn, convert_to_tensor. cbn [bind]. cbv zeta.
    unfold masked_log_probs, Normal_log_prob_tensor, newaxis.
    cbn [tf_stack bind]. rewrite tf_where_mask. cbn [bind broadcast2 map].
    unfold tf_where.
    rewrite broadcast2_same_length by (now rewrite !length_map).
    cbn [bind fst snd]. do 2 f_equal.
    induction locs as [|l locs IH]; simpl; [reflexivity|].
    rewrite IH. f_equal. unfold timestep_term, missing. simpl.
    now destruct (is_finite l).
  - intros Hsome.
    unfold brownian_motion_log_likelihood_fn, convert_to_tensor. cbn [bind]. cbv zeta.
    unfold masked_log_probs, Normal_log_prob_tensor, newaxis.
    rewrite (tf_stack_nonempty Hsome). cbn [bind].
    rewrite tf_where_mask. cbn [bind map].
    rewrite broadcast2_scalar_r. cbn [bind].
    rewrite broadcast2_scalar_r. cbn [bind].
    unfold tf_where. cbn [broadcast2 bind]. do 2 f_equal.
    rewrite !map_map. apply map_ext. intros v.
    unfold timestep_term, missing. simpl. now destruct (is_finite x).
Qed.

(** At a timestep whose observation is missing the latent position does
    not matter, not even a latent that is not finite: with one latent
    per timestep, exchanging it leaves the result as it is, with a fixed
    scale and without. *)
Theorem missing_timestep_ignores_latent
    (vpre vpost : list dtype) (lpre lpost : tensor) (v v' x scale : dtype)
    (Hpre : length vpre = length lpre) (Hpost : length vpost = length lpost)
    (Hx : is_finite x = false) :
  brownian_motion_log_likelihood_fn (vpre ++ v :: vpost) (lpre ++ x :: lpost) (Some scale)
  = brownian_motion_log_likelihood_fn (vpre ++ v' :: vpost) (lpre ++ x :: lpost) (Some scale)
  /\ forall innovation,
       brownian_motion_log_likelihood_fn
         (innovation :: scale :: vpre ++ v :: vpost) (lpre ++ x :: lpost) None
       = brownian_motion_log_likelihood_fn
           (innovation :: scale :: vpre ++ v' :: vpost) (lpre ++ x :: lpost) None.
Proof.
  assert (Hfixed :
    brownian_motion_log_likelihood_fn (vpre ++ v :: vpost) (lpre ++ x :: lpost) (Some scale)
    = brownian_motion_log_likelihood_fn (vpre ++ v' :: vpost) (lpre ++ x :: lpost)
        (Some scale)).
  { rewrite !log_likelihood_aligned;
      try (rewrite !length_app; simpl; lia);
      try (intros H; apply (f_equal (@length _)) in H;
           rewrite length_app in H; simpl in H; lia).
    do 2 f_equal. rewrite !combine_app_aligned by exact Hpre.
    rewrite !map_app. f_equal. simpl. f_equal.
    unfold timestep_term, missing. simpl. now rewrite Hx. }
  split; [exact Hfixed|]. intros innovation. exact Hfixed.
Qed.

(** Where the addition is associative and commutative with zero as
    its identity, every order of summation gives the same sum, and the
    log-likelihood of two series laid end to end is the sum of their
    log-likelihoods. *)
Theorem log_likelihood_adds_over_timesteps
    (v1 v2 : list dtype) (l1 l2 : tensor) (scale : dtype)
    (H1 : length v1 = length l1) (H2 : length v2 = length l2)
    (Hv1 : v1 <> []) (Hv2 : v2 <> [])
    (Hsum : adds_up_in_some_order)
    (Hassoc : forall a b c, add (add a b) c = add a (add b c))
    (Hcomm : forall a b, add a b = add b a)
    (Hl : forall a, add zero a = a) (Hr : forall a, add a zero = a) :
  exists r1 r2,
    brownian_motion_log_likelihood_fn v1 l1 (Some scale) = Some r1
    /\ brownian_motion_log_likelihood_fn v2 l2 (Some scale) = Some r2
    /\ brownian_motion_log_likelihood_fn (v1 ++ v2) (l1 ++ l2) (Some scale)
       = Some (add r1 r2).
Proof.
  do 2 eexists. split; [now apply log_likelihood_aligned|].
  split; [now apply log_likelihood_aligned|].
  rewrite log_likelihood_aligned.
  - f_equal.
    rewrite !(sums_fold_right Hassoc Hcomm Hl (Hsum _)).
    rewrite combine_app_aligned by exact H1.
    rewrite map_app. now apply fold_right_add_app.
  - rewrite !length_app. lia.
  - destruct v1; [congruence | discriminate].
Qed.

(** Where the addition is associative and commutative with zero as
    its identity, the zero terms of the missing timesteps drop out: the
    log-likelihood is the sum of the log-densities of the observed
    timesteps alone. *)
Theorem log_likelihood_sums_observed_alone
    (values : list dtype) (locs : tensor) (scale : dtype)
    (Hlen : length values = length locs) (Hsome : values <> [])
    (Hsum : adds_up_in_some_order)
    (Hassoc : forall a b c, add (add a b) c = add a (add b c))
    (Hcomm : forall a b, add a b = add b a)
    (Hl : forall a, add zero a = a) :
  brownian_motion_log_likelihood_fn values locs (Some scale)
  = Some (fold_right add zero (observed_log_probs scale values locs))
  /\ brownian_motion_log_likelihood_fn values locs (Some scale)
     = Some (reduce_sum (observed_log_probs scale values locs)).
Proof.
  rewrite (@log_likelihood_aligned _ values locs scale Hlen Hsome).
  rewrite !(sums_fold_right Hassoc Hcomm Hl (Hsum _)).
  unfold observed_log_probs.
  now rewrite (fold_right_terms_observed Hl).
Qed.

End FurtherLikelihood.

(** In the exact arithmetic nothing overflows: with one latent per
    timestep, finite latent positions and a finite positive scale, the
    log-likelihood is finite however many observations are missing. *)
Theorem exact_log_likelihood_is_finite
    (values : list Exact.xreal) (locs : list Exact.xreal) (scale : Exact.xreal)
    (Hlen : length values = length locs) (Hsome : values <> [])
    (Hvalues : Forall (fun v => Exact.x_is_finite v = true) values)
    (Hfinite : Exact.x_is_finite scale = true)
    (Hpositive : Exact.x_is_positive scale = true) :
  exists r,
    @brownian_motion_log_likelihood_fn Exact.engine values locs (Some scale) = Some r
    /\ Exact.x_is_finite r = true.
Proof.
  eexists. split; [now apply (@log_likelihood_aligned Exact.engine)|].
  apply (@sums_finite Exact.engine
           (map (@timestep_term Exact.engine scale) (combine values locs))
           (map (@timestep_term Exact.engine scale) (combine values locs)) []).
  - reflexivity.
  - apply ExactFacts.never_overflows.
  - now rewrite app_nil_r.
  - apply ExactFacts.adds_up.
  - apply Forall_forall. intros t Ht.
    apply in_map_iff in Ht. destruct Ht as ([v x] & <- & Hin).
    unfold timestep_term, missing. simpl.
    destruct (Exact.x_is_finite x) eqn:Hx; simpl; [|reflexivity].
    apply ExactFacts.log_prob_finite; trivial.
    rewrite Forall_forall in Hvalues. apply Hvalues.
    eapply in_combine_l; eassumption.
Qed.

(** In binary32, whatever the runtime does with subnormal numbers,
    whatever its logarithm returns and in whatever order its reduction
    adds: with one latent per timestep the log-likelihood is exactly
    zero when every observation is missing, and it is not finite as soon
    as the log-density at one observed timestep is not finite. *)
Theorem binary32_overflow_reaches_the_result
    (d : Binary32.Denormals) (flog : spec_float -> spec_float)
    (fsum : list spec_float -> spec_float)
    (values locs : list spec_float) (scale : spec_float)
    (Hsum : @adds_up_in_some_order (Binary32.engine d flog fsum))
    (Hlen : length values = length locs) (Hsome : values <> []) :
  exists r,
    @brownian_motion_log_likelihood_fn (Binary32.engine d flog fsum)
      values locs (Some scale) = Some r
    /\ (Forall (fun x => Binary32.f32_is_finite x = false) locs ->
        r = Binary32.f32_zero)
    /\ (forall (t : nat) (v x : spec_float),
          nth_error values t = Some v -> nth_error locs t = Some x ->
          Binary32.f32_is_finite x = true ->
          Binary32.f32_is_finite
            (Normal_log_prob (Binary32.arith d flog) v scale x) = false ->
          Binary32.f32_is_finite r = false).
Proof.
  eexists. split; [now apply (@log_likelihood_aligned (Binary32.engine d flog fsum))|].
  split.
  - intros Hall.
    apply (@sums_all_zero (Binary32.engine d flog fsum) _ _
             (Binary32Facts.add_zero_zero d) (Hsum _)).
    apply (@terms_all_missing (Binary32.engine d flog fsum) values locs _ scale).
    + now apply (@masked_log_probs_aligned (Binary32.engine d flog fsum)).
    + eapply Forall_impl; [|exact Hall].
      intros x Hx. unfold missing. simpl. now rewrite Hx.
  - intros t v x Hv Hx Hobserved Hdensity.
    eapply Binary32Facts.sums_not_finite; [apply Hsum|].
    apply Exists_exists.
    exists (Normal_log_prob (Binary32.arith d flog) v scale x).
    split; [|exact Hdensity].
    apply (nth_error_In _ t).
    pose proof (@nth_term_aligned (Binary32.engine d flog fsum)
                  values locs scale t v x Hv Hx) as Hterm.
    cbn [is_finite Binary32.engine] in Hterm. rewrite Hobserved in Hterm.
    exact Hterm.
Qed.

(** ** Further properties of the priors and the models *)

Lemma to_int_not_nil (t : Z) :
  Z.to_int t <> Decimal.Pos Decimal.Nil /\ Z.to_int t <> Decimal.Neg Decimal.Nil.
Proof.
  split; intros H; pose proof (DecimalZ.of_to t) as Ht; rewrite H in Ht;
    simpl in Ht; subst t; discriminate.
Qed.

(** Two timesteps with the same variable name are the same timestep. *)
Lemma x_name_inj (a b : Z) : x_name a = x_name b -> a = b.
Proof.
  unfold x_name. simpl. intros [= H].
  apply DecimalZ.to_int_inj.
  apply (f_equal NilZero.int_of_string) in H.
  destruct (to_int_not_nil a) as [Ha1 Ha2], (to_int_not_nil b) as [Hb1 Hb2].
  rewrite !NilZero.isi in H by assumption.
  now injection H.
Qed.

Lemma x_name_not_a_scale (t : Z) :
  x_name t <> "innovation_noise_scale"%string
  /\ x_name t <> "observation_noise_scale"%string.
Proof.
  unfold x_name. simpl. split; discriminate.
Qed.

Lemma In_range (start stop t : Z) :
  In t (range start stop) -> (start <= t < stop)%Z.
Proof.
  unfold range. intros H. apply in_map_iff in H.
  destruct H as (k & <- & Hk). apply in_seq in Hk. lia.
Qed.

Lemma NoDup_range (start stop : Z) : NoDup (range start stop).
Proof.
  unfold range. apply NoDup_map_NoDup_ForallPairs; [|apply seq_NoDup].
  intros i j _ _ H. lia.
Qed.

Section FurtherPriors.

Context {E : Engine}.

Lemma names_for_timesteps (sample : nat -> Yielded -> dtype)
    (scale : dtype) (ts : list Z) (i : nat) (new : dtype) :
  names_of (run sample i (for_timesteps scale ts new)) = map x_name ts.
Proof.
  unfold names_of. revert i new.
  induction ts as [|t ts IH]; intros i new; simpl; [reflexivity|].
  now rewrite IH.
Qed.

Lemma names_prior (sample : nat -> Yielded -> dtype)
    (num_timesteps : Z) (scale : dtype) (i : nat) :
  names_of (run sample i (brownian_motion_prior_fn num_timesteps scale))
  = latent_names num_timesteps.
Proof.
  unfold brownian_motion_prior_fn, latent_names. cbn [run].
  change (names_of (?p :: ?l)) with (name_of (distribution_of (fst p)) :: names_of l).
  cbn [fst distribution_of name_of]. f_equal. apply names_for_timesteps.
Qed.

Lemma names_unknown_prior (sample : nat -> Yielded -> dtype)
    (num_timesteps : Z) :
  names_of (run sample 0 (brownian_motion_unknown_scales_prior_fn num_timesteps))
  = "innovation_noise_scale"%string :: "observation_noise_scale"%string
    :: latent_names num_timesteps.
Proof.
  rewrite run_unknown_scales_prior.
  change (names_of (?p :: ?q :: ?l))
    with (name_of (distribution_of (fst p))
          :: name_of (distribution_of (fst q)) :: names_of l).
  cbn [fst distribution_of name_of]. do 2 f_equal. apply names_prior.
Qed.

Lemma NoDup_latent_names (num_timesteps : Z) : NoDup (latent_names num_timesteps).
Proof.
  unfold latent_names. constructor.
  - intros Hin. apply in_map_iff in Hin. destruct Hin as (t & Ht & Hr).
    apply In_range in Hr.
    change "x_0"%string with (x_name 0) in Ht.
    apply x_name_inj in Ht. lia.
  - apply NoDup_map_NoDup_ForallPairs; [|apply NoDup_range].
    intros a b _ _. apply x_name_inj.
Qed.

(** Whatever values are sampled, the variables of the prior are named
    [x_0], [x_1], ... in the order of the timesteps, after the two scale
    names in the unknown-scales prior, and no name occurs twice. *)
Theorem prior_names_are_distinct (sample : nat -> Yielded -> dtype)
    (num_timesteps : Z) (scale : dtype) :
  names_of (run sample 0 (brownian_motion_prior_fn num_timesteps scale))
  = latent_names num_timesteps
  /\ names_of (run sample 0 (brownian_motion_unknown_scales_prior_fn num_timesteps))
     = "innovation_noise_scale"%string :: "observation_noise_scale"%string
       :: latent_names num_timesteps
  /\ NoDup ("innovation_noise_scale"%string :: "observation_noise_scale"%string
            :: latent_names num_timesteps).
Proof.
  split; [apply names_prior|]. split; [apply names_unknown_prior|].
  assert (Hscale : forall n : string,
            In n (latent_names num_timesteps) ->
            n <> "innovation_noise_scale"%string
            /\ n <> "observation_noise_scale"%string).
  { intros n [<- | Hin]; [split; discriminate|].
    apply in_map_iff in Hin. destruct Hin as (t & <- & _).
    apply x_name_not_a_scale. }
  constructor; [|constructor; [|apply NoDup_latent_names]].
  - intros [H | H]; [discriminate|]. now apply Hscale in H.
  - intros H. now apply Hscale in H.
Qed.

(** A model evaluates its likelihood at any sample of its own prior
    without raising, even the model on the empty locs array, where the
    lone latent broadcasts against no loc.  On an array with at least
    one entry the sample has one latent per loc, and an unknown-scales
    model takes the scale from the second sampled value. *)
Theorem prior_sample_has_a_likelihood (sample : nat -> Yielded -> dtype)
    (locs : tensor) (si so : dtype) (nm pn : string) :
  (exists self,
      BrownianMotion_init locs si so nm pn = Some self
      /\ let value := map snd (run sample 0 (_prior_dist self)) in
         (exists r, fst (log_likelihood self value) = Some r)
         /\ (locs <> [] ->
             length value = length locs
             /\ fst (log_likelihood self value)
                = Some (reduce_sum (map (timestep_term so) (combine value locs)))))
  /\ (exists self,
        BrownianMotionUnknownScales_init locs nm pn = Some self
        /\ exists v0 v1 latents,
             map snd (run sample 0 (_prior_dist self)) = v0 :: v1 :: latents
             /\ (exists r, fst (log_likelihood self (v0 :: v1 :: latents)) = Some r)
             /\ (locs <> [] ->
                 length latents = length locs
                 /\ fst (log_likelihood self (v0 :: v1 :: latents))
                    = Some (reduce_sum (map (timestep_term v1) (combine latents locs))))).
Proof.
  assert (Hlength : forall i v,
             length (map snd (run sample i
               (brownian_motion_prior_fn (Z.of_nat (length locs)) v)))
             = if Nat.eqb (length locs) 0 then 1 else length locs).
  { intros i v. rewrite length_map, length_run_prior.
    destruct locs; cbn [length Nat.eqb]; lia. }
  assert (Hreturns : forall i v scale,
             exists r,
               brownian_motion_log_likelihood_fn
                 (map snd (run sample i
                    (brownian_motion_prior_fn (Z.of_nat (length locs)) v)))
                 locs (Some scale) = Some r).
  { intros i v scale. apply log_likelihood_fixed_returns_iff. split.
    - intros H. apply (f_equal (@length _)) in H. rewrite Hlength in H.
      destruct locs; discriminate.
    - rewrite Hlength. unfold broadcastable.
      destruct locs; simpl; [reflexivity|].
      now rewrite Nat.eqb_refl. }
  assert (Haligned : forall i v scale,
             locs <> [] ->
             let value := map snd (run sample i
                            (brownian_motion_prior_fn (Z.of_nat (length locs)) v)) in
             length value = length locs
             /\ brownian_motion_log_likelihood_fn value locs (Some scale)
                = Some (reduce_sum (map (timestep_term scale) (combine value locs)))).
  { intros i v scale Hlocs value.
    assert (Hlen : length value = length locs).
    { unfold value. rewrite Hlength. destruct locs; [congruence | reflexivity]. }
    split; [exact Hlen|].
    apply log_likelihood_aligned; [exact Hlen|].
    intros H. rewrite H in Hlen. destruct locs; [congruence | discriminate]. }
  split.
  - eexists. split; [apply BrownianMotion_init_eq|].
    cbv zeta. unfold log_likelihood, call.
    cbn [fst _prior_dist _log_likelihood_fn bound_locs bound_observation_noise_scale].
    split; [apply Hreturns | apply Haligned].
  - eexists. split; [apply BrownianMotionUnknownScales_init_eq|].
    cbn [_prior_dist]. rewrite run_unknown_scales_prior. cbn [map snd].
    do 3 eexists. split; [reflexivity|].
    unfold log_likelihood, call.
    cbn [fst _log_likelihood_fn bound_locs bound_observation_noise_scale].
    match goal with
    | |- context [brownian_motion_log_likelihood_fn (?a :: ?s :: ?rest) ?l None] =>
        change (brownian_motion_log_likelihood_fn (a :: s :: rest) l None)
          with (brownian_motion_log_likelihood_fn rest l (Some s))
    end.
    split; [apply Hreturns | apply Haligned].
Qed.

(** The event-space bijector of a constructed model has one component
    for every variable of the prior, under that variable's name and in
    the prior's order; on a locs array with at least one entry every
    component holds a bijector. *)
Theorem event_space_bijector_keys (sample : nat -> Yielded -> dtype)
    (locs : tensor) (si so : dtype) (nm pn : string) :
  (exists self,
      BrownianMotion_init locs si so nm pn = Some self
      /\ map fst (default_event_space_bijector self)
         = names_of (run sample 0 (_prior_dist self))
      /\ map fst (default_event_space_bijector self)
         = latent_names (Z.of_nat (length locs))
      /\ (locs <> [] ->
          Forall (fun c => snd c <> None) (default_event_space_bijector self)))
  /\ (exists self,
        BrownianMotionUnknownScales_init locs nm pn = Some self
        /\ map fst (default_event_space_bijector self)
           = names_of (run sample 0 (_prior_dist self))
        /\ map fst (default_event_space_bijector self)
           = "innovation_noise_scale"%string :: "observation_noise_scale"%string
             :: latent_names (Z.of_nat (length locs))
        /\ (locs <> [] ->
            Forall (fun c => snd c <> None) (default_event_space_bijector self))).
Proof.
  assert (Hlatents : length (latent_names (Z.of_nat (length locs)))
                     = S (Z.to_nat (Z.of_nat (length locs) - 1))).
  { unfold latent_names. cbn [length]. now rewrite length_map, length_range. }
  assert (Hkeys :
    map fst (combine (latent_names (Z.of_nat (length locs)))
      (repeat (Some Identity) (length locs)
       ++ repeat (@None Bijector)
            (length (latent_names (Z.of_nat (length locs))) - length locs)))
    = latent_names (Z.of_nat (length locs))).
  { apply map_fst_combine_same_length.
    rewrite length_app, !repeat_length, Hlatents. lia. }
  assert (Hfull : locs <> [] ->
            length (latent_names (Z.of_nat (length locs))) - length locs = 0).
  { intros Hlocs. rewrite Hlatents.
    destruct locs; [congruence | cbn [length]; lia]. }
  assert (Hsome : forall names : list string,
            Forall (fun c : string * option Bijector => snd c <> None)
                   (combine names (repeat (Some Identity) (length locs)))).
  { intros names. apply Forall_forall. intros [n c] Hin.
    apply in_combine_r in Hin. apply repeat_spec in Hin. simpl. now rewrite Hin. }
  split.
  - eexists. split; [apply BrownianMotion_init_eq|].
    cbn [default_event_space_bijector _prior_dist].
    replace (flat_resolve_names
               (brownian_motion_prior_fn (Z.of_nat (length locs)) si))
      with (latent_names (Z.of_nat (length locs)))
      by (symmetry; apply (names_prior (fun _ _ => zero))).
    rewrite Hkeys.
    split; [now rewrite names_prior|]. split; [reflexivity|].
    intros Hlocs. rewrite (Hfull Hlocs). cbn [repeat]. rewrite app_nil_r.
    apply Hsome.
  - eexists. split; [apply BrownianMotionUnknownScales_init_eq|].
    cbn [default_event_space_bijector _prior_dist].
    replace (flat_resolve_names
               (brownian_motion_unknown_scales_prior_fn (Z.of_nat (length locs))))
      with ("innovation_noise_scale"%string :: "observation_noise_scale"%string
            :: latent_names (Z.of_nat (length locs)))
      by (symmetry; apply (names_unknown_prior (fun _ _ => zero))).
    cbn [length Nat.add Nat.sub combine map fst].
    rewrite Hkeys.
    split; [now rewrite names_unknown_prior|]. split; [reflexivity|].
    intros Hlocs. rewrite (Hfull Hlocs). cbn [repeat]. rewrite app_nil_r.
    constructor; [discriminate|]. constructor; [discriminate|].
    apply Hsome.
Qed.

Lemma run_ext (sample sample' : nat -> Yielded -> dtype) (g : Generator) (i : nat) :
  (forall j y, i <= j -> sample j y = sample' j y) ->
  run sample i g = run sample' i g.
Proof.
  revert i. induction g as [|y k IH]; intros i Hsame; simpl; [reflexivity|].
  rewrite (Hsame i y) by lia. f_equal. apply IH.
  intros j y' Hj. apply Hsame. lia.
Qed.

(** The value sampled for the observation noise scale is discarded by
    the unknown-scales prior: with every other sample the same, the
    prior yields the same distributions and differs in nothing but that
    one sampled value. *)
Theorem unknown_prior_discards_observation_scale
    (sample sample' : nat -> Yielded -> dtype) (num_timesteps : Z)
    (Hsame : forall j y, j <> 1 -> sample j y = sample' j y) :
  map fst (run sample 0 (brownian_motion_unknown_scales_prior_fn num_timesteps))
  = map fst (run sample' 0 (brownian_motion_unknown_scales_prior_fn num_timesteps))
  /\ exists first observation rest,
       run sample 0 (brownian_motion_unknown_scales_prior_fn num_timesteps)
       = first :: (observation, sample 1 observation) :: rest
       /\ run sample' 0 (brownian_motion_unknown_scales_prior_fn num_timesteps)
          = first :: (observation, sample' 1 observation) :: rest.
Proof.
  rewrite !run_unknown_scales_prior.
  rewrite <- (Hsame 0) by lia.
  rewrite (@run_ext sample sample' _ 2) by (intros j y Hj; apply Hsame; lia).
  split; [reflexivity|]. do 3 eexists. split; reflexivity.
Qed.

End FurtherPriors.

Section FurtherIdentity.

Context {E : Engine}.

(** The identity transformations fail exactly on a sample too short to
    hold a latent position, and what they return holds the sample
    itself, component by component. *)
Theorem identity_returns_the_sample (params : list dtype) :
  (BrownianMotion_ext_identity params = None <-> params = [])
  /\ (BrownianMotionUnknownScales_ext_identity params = None <-> length params < 3)
  /\ (forall e, BrownianMotion_ext_identity params = Some e -> components e = params)
  /\ (forall e, BrownianMotionUnknownScales_ext_identity params = Some e ->
                components e = params).
Proof.
  unfold BrownianMotion_ext_identity, BrownianMotionUnknownScales_ext_identity.
  split; [|split; [|split]].
  - destruct params; cbn [tf_stack bind]; split; intros H;
      try reflexivity; discriminate.
  - destruct params as [|p0 [|p1 [|p2 rest]]];
      cbn [nth_error skipn tf_stack bind length]; split; intros H;
      try reflexivity; try lia; discriminate.
  - destruct params; cbn [tf_stack bind]; intros e H;
      [discriminate | injection H as <-; reflexivity].
  - destruct params as [|p0 [|p1 [|p2 rest]]];
      cbn [nth_error skipn tf_stack bind]; intros e H;
      try discriminate.
    injection H as <-. reflexivity.
Qed.

End FurtherIdentity.

(** ** The further properties at concrete inputs *)

Module FurtherWitnesses.

Import Exact Inputs.

Lemma lone_latent_witness :
  [Fin 1; Fin 2; Fin 3] <> []
  /\ @brownian_motion_log_likelihood_fn engine [Fin 1; Fin 2; Fin 3] [Fin 0] (Some (Fin 1))
     = Some (@reduce_sum engine
               (map (fun m => @timestep_term engine (Fin 1) (m, Fin 0))
                    [Fin 1; Fin 2; Fin 3])).
Proof.
  split; [discriminate|].
  apply (@lone_latent_or_loc_broadcasts engine
           (Fin 1) (Fin 0) (Fin 1) [Fin 1; Fin 2; Fin 3] []).
  discriminate.
Defined.

Lemma missing_timestep_witness :
  length [Fin 1] = length [Fin 2]
  /\ length (@nil xreal) = length (@nil xreal)
  /\ x_is_finite NaN = false
  /\ @brownian_motion_log_likelihood_fn engine
       ([Fin 1] ++ Fin 3 :: []) ([Fin 2] ++ NaN :: []) (Some (Fin 1))
     = @brownian_motion_log_likelihood_fn engine
         ([Fin 1] ++ PInf :: []) ([Fin 2] ++ NaN :: []) (Some (Fin 1)).
Proof.
  split; [reflexivity|]. split; [reflexivity|]. split; [reflexivity|].
  apply (@missing_timestep_ignores_latent engine
           [Fin 1] [] [Fin 2] [] (Fin 3) PInf NaN (Fin 1)
           eq_refl eq_refl eq_refl).
Defined.

Lemma adds_over_timesteps_witness :
  length [Fin 1] = length [Fin 2]
  /\ length [Fin 3; Fin 4] = length [NaN; Fin 5]
  /\ [Fin 1] <> [] /\ [Fin 3; Fin 4] <> []
  /\ @adds_up_in_some_order engine
  /\ (forall a b c, xadd (xadd a b) c = xadd a (xadd b c))
  /\ (forall a b, xadd a b = xadd b a)
  /\ (forall a, xadd (Fin 0) a = a) /\ (forall a, xadd a (Fin 0) = a)
  /\ exists r1 r2,
       @brownian_motion_log_likelihood_fn engine [Fin 1] [Fin 2] (Some (Fin 1)) = Some r1
       /\ @brownian_motion_log_likelihood_fn engine
            [Fin 3; Fin 4] [NaN; Fin 5] (Some (Fin 1)) = Some r2
       /\ @brownian_motion_log_likelihood_fn engine
            ([Fin 1] ++ [Fin 3; Fin 4]) ([Fin 2] ++ [NaN; Fin 5]) (Some (Fin 1))
          = Some (xadd r1 r2).
Proof.
  split; [reflexivity|]. split; [reflexivity|].
  split; [discriminate|]. split; [discriminate|].
  split; [exact ExactFacts.adds_up|].
  split; [exact ExactFacts.xadd_assoc|].
  split; [exact ExactFacts.xadd_comm|].
  split; [exact ExactFacts.xadd_zero_l|].
  split; [exact ExactFacts.xadd_zero_r|].
  apply (@log_likelihood_adds_over_timesteps engine
           [Fin 1] [Fin 3; Fin 4] [Fin 2] [NaN; Fin 5] (Fin 1) eq_refl eq_refl).
  - discriminate.
  - discriminate.
  - exact ExactFacts.adds_up.
  - exact ExactFacts.xadd_assoc.
  - exact ExactFacts.xadd_comm.
  - exact ExactFacts.xadd_zero_l.
  - exact ExactFacts.xadd_zero_r.
Defined.

Lemma observed_alone_witness :
  length [Fin 1; Fin 2] = length [Fin 3; NaN]
  /\ [Fin 1; Fin 2] <> []
  /\ @adds_up_in_some_order engine
  /\ (forall a b c, xadd (xadd a b) c = xadd a (xadd b c))
  /\ (forall a b, xadd a b = xadd b a)
  /\ (forall a, xadd (Fin 0) a = a)
  /\ @brownian_motion_log_likelihood_fn engine [Fin 1; Fin 2] [Fin 3; NaN] (Some (Fin 1))
     = Some (xadd (Normal_log_prob arith (Fin 1) (Fin 1) (Fin 3)) (Fin 0)).
Proof.
  split; [reflexivity|]. split; [discriminate|].
  split; [exact ExactFacts.adds_up|].
  split; [exact ExactFacts.xadd_assoc|].
  split; [exact ExactFacts.xadd_comm|].
  split; [exact ExactFacts.xadd_zero_l|].
  refine (proj1 (@log_likelihood_sums_observed_alone engine
                   [Fin 1; Fin 2] [Fin 3; NaN] (Fin 1) eq_refl _
                   ExactFacts.adds_up ExactFacts.xadd_assoc ExactFacts.xadd_comm
                   ExactFacts.xadd_zero_l)).
  discriminate.
Defined.

Lemma binary32_overflow_witness :
  length [Binary32.f32_max] = length [SFopp Binary32.f32_max]
  /\ [Binary32.f32_max] <> []
  /\ nth_error [Binary32.f32_max] 0 = Some Binary32.f32_max
  /\ nth_error [SFopp Binary32.f32_max] 0 = Some (SFopp Binary32.f32_max)
  /\ Binary32.f32_is_finite (SFopp Binary32.f32_max) = true
  /\ forall (d : Binary32.Denormals) (flog : spec_float -> spec_float),
       exists r,
         @brownian_motion_log_likelihood_fn
           (Binary32.engine d flog
              (fun t => fold_left (Binary32.operation d SFadd) t Binary32.f32_zero))
           [Binary32.f32_max] [SFopp Binary32.f32_max] (Some Binary32.f32_one) = Some r
         /\ Binary32.f32_is_finite r = false.
Proof.
  split; [reflexivity|]. split; [discriminate|].
  split; [reflexivity|]. split; [reflexivity|]. split; [reflexivity|].
  intros d flog.
  destruct (@binary32_overflow_reaches_the_result d flog
              (fun t => fold_left (Binary32.operation d SFadd) t Binary32.f32_zero)
              [Binary32.f32_max] [SFopp Binary32.f32_max] Binary32.f32_one)
    as (r & Hr & _ & Hoverflow).
  - intros t.
    apply (@sums_fold_left
             (Binary32.engine d flog
                (fun t => fold_left (Binary32.operation d SFadd) t Binary32.f32_zero))).
  - reflexivity.
  - discriminate.
  - exists r. split; [exact Hr|].
    apply (Hoverflow 0 Binary32.f32_max (SFopp Binary32.f32_max));
      [reflexivity | reflexivity | reflexivity |].
    rewrite Binary32Facts.overflowing_log_prob.
    now apply Binary32Facts.sub_not_finite_l.
Defined.

Lemma exact_finite_witness :
  length [Fin 1; Fin 2] = length [Fin 3; NaN]
  /\ [Fin 1; Fin 2] <> []
  /\ Forall (fun v => x_is_finite v = true) [Fin 1; Fin 2]
  /\ x_is_finite (Fin 1) = true /\ x_is_positive (Fin 1) = true
  /\ exists r,
       @brownian_motion_log_likelihood_fn engine [Fin 1; Fin 2] [Fin 3; NaN] (Some (Fin 1))
       = Some r
       /\ x_is_finite r = true.
Proof.
  split; [reflexivity|]. split; [discriminate|].
  split; [repeat constructor|]. split; [reflexivity|].
  split; [exact ExactFacts.x_is_positive_one|].
  apply (@exact_log_likelihood_is_finite [Fin 1; Fin 2] [Fin 3; NaN] (Fin 1) eq_refl).
  - discriminate.
  - repeat constructor.
  - reflexivity.
  - exact ExactFacts.x_is_positive_one.
Defined.

Lemma prior_sample_witness :
  exists self,
    @BrownianMotion_init engine three_locs (Fin 1) (Fin 2) "m" "M" = Some self
    /\ exists r,
         fst (log_likelihood self (map snd (@run engine sampler 0 (_prior_dist self))))
         = Some r.
Proof.
  destruct (proj1 (@prior_sample_has_a_likelihood engine sampler
                     three_locs (Fin 1) (Fin 2) "m" "M"))
    as (self & Hinit & Hreturns & _).
  exists self. split; [exact Hinit | exact Hreturns].
Defined.

Lemma discarded_sample_witness :
  (forall j y, j <> 1 ->
     sampler j y = (fun i y => if Nat.eqb i 1 then Fin 7 else sampler i y) j y)
  /\ map fst (@run engine sampler 0 (@brownian_motion_unknown_scales_prior_fn engine 3))
     = map fst (@run engine (fun i y => if Nat.eqb i 1 then Fin 7 else sampler i y) 0
                  (@brownian_motion_unknown_scales_prior_fn engine 3)).
Proof.
  assert (H : forall j y, j <> 1 ->
     sampler j y = (fun i y => if Nat.eqb i 1 then Fin 7 else sampler i y) j y).
  { intros j y Hj. simpl. destruct (Nat.eqb_spec j 1); [contradiction | reflexivity]. }
  split; [exact H|].
  apply (@unknown_prior_discards_observation_scale engine
           sampler (fun i y => if Nat.eqb i 1 then Fin 7 else sampler i y) 3 H).
Defined.

Lemma bijector_keys_witness :
  exists self,
    @BrownianMotionUnknownScales_init engine three_locs "m" "M" = Some self
    /\ map fst (default_event_space_bijector self)
       = ["innovation_noise_scale"; "observation_noise_scale"; "x_0"; "x_1"; "x_2"]%string.
Proof.
  destruct (proj2 (@event_space_bijector_keys engine sampler
                     three_locs (Fin 1) (Fin 2) "m" "M"))
    as (self & Hinit & _ & Hkeys & _).
  exists self. split; [exact Hinit | exact Hkeys].
Defined.

End FurtherWitnesses.
